(** * RepeatedTimerTask (src/raft/repeated_timer_task.cpp)

    A shallow embedding of the repeated timer task of libraft and of the
    lock discipline it follows.

    - The object state is a record of the C++ members.
    - Every member function is written in a small state-and-abort monad
      [M]: the state is the object, the timer subsystem and the trace of
      observable events; [CHECK] aborts.
    - [on_timedout()] releases the mutex around [run()], so it is cut at
      the two places where the mutex is free: [on_timedout_enter]
      (lines 48-50), the call of [run()] (line 52) and
      [on_timedout_reconcile] (lines 53-63).
    - A [world] holds the object, the timer subsystem, the threads that
      are between two critical sections and the global event log; [step]
      runs one critical section (or one call made with the mutex free)
      atomically, which is what the mutex guarantees. *)

From Stdlib Require Import ZArith List Bool Arith Lia String DecimalString.
Import ListNotations.
Open Scope Z_scope.

(** ** Data model *)

(** [raft_timer_t]: an opaque handle of the timer subsystem;
    [raft_timer_t()] is the null handle. *)
Definition handle := nat.
Definition raft_timer_t0 : handle := 0%nat.

(** The members of [RepeatedTimerTask]. Times are in milliseconds; the
    [int] period is only stored, printed and passed on, so it is a [Z]. *)
Record task := Task {
  timeout_ms : Z;
  stopped : bool;
  running : bool;
  destroyed : bool;
  invoking : bool;
  next_duetime : Z;
  timer : handle
}.

Definition set_timeout_ms (v : Z) (t : task) : task :=
  Task v (stopped t) (running t) (destroyed t) (invoking t) (next_duetime t) (timer t).
Definition set_stopped (v : bool) (t : task) : task :=
  Task (timeout_ms t) v (running t) (destroyed t) (invoking t) (next_duetime t) (timer t).
Definition set_running (v : bool) (t : task) : task :=
  Task (timeout_ms t) (stopped t) v (destroyed t) (invoking t) (next_duetime t) (timer t).
Definition set_destroyed (v : bool) (t : task) : task :=
  Task (timeout_ms t) (stopped t) (running t) v (invoking t) (next_duetime t) (timer t).
Definition set_invoking (v : bool) (t : task) : task :=
  Task (timeout_ms t) (stopped t) (running t) (destroyed t) v (next_duetime t) (timer t).
Definition set_next_duetime (v : Z) (t : task) : task :=
  Task (timeout_ms t) (stopped t) (running t) (destroyed t) (invoking t) v (timer t).
Definition set_timer (v : handle) (t : task) : task :=
  Task (timeout_ms t) (stopped t) (running t) (destroyed t) (invoking t) (next_duetime t) v.

(** Modelled from the spec: the timer subsystem behind [raft_timer_add] and
    [raft_timer_del] (declared in raft/util.h, not part of this file).
    "register(due_time, callback, context) -> handle | error;
    cancel(handle) -> success | already_fired": the subsystem keeps the
    registrations that are outstanding; a cancellation succeeds exactly on
    an outstanding registration. *)
Record timers := Timers {
  pending : list (handle * Z);
  next_id : handle
}.

Definition outstanding (h : handle) (ts : timers) : bool :=
  existsb (fun r => Nat.eqb (fst r) h) (pending ts).

Definition cancel (h : handle) (ts : timers) : timers :=
  Timers (filter (fun r => negb (Nat.eqb (fst r) h)) (pending ts)) (next_id ts).

(** Where a thread stands when it is between two critical sections. *)
Inductive pc :=
| PDispatch    (* on_timedout(void* ), line 97: about to start a bthread *)
| PEnter       (* on_timedout(), line 48: about to take the mutex *)
| PRun         (* on_timedout(), line 52: about to call run() *)
| PReconcile   (* on_timedout(), line 53: run() returned *)
| PHook.       (* destroy(), lines 145 and 154: about to call on_destroy() *)

(** What a thread can be observed to do. [ETimerAdd n due rc] records the
    number [n] of registrations that were outstanding when
    [raft_timer_add] was entered; [EOnDestroy t] records the object as the
    hook finds it. *)
Inductive event :=
| ELock
| EUnlock
| ERun
| EOnDestroy (seen : task)
| ETimerAdd (before : nat) (due : Z) (rc : Z)
| ETimerDel (h : handle) (rc : Z)
| EWrite (s : string).

(** What the surroundings decide for one step: the clock, whether the
    timer subsystem accepts a registration, whether a bthread can be
    started. *)
Record env := Env {
  now : Z;
  timer_add_ok : bool;
  bthread_ok : bool
}.

(** ** The monad of a critical section *)

Record cstate := CS {
  c_tk : task;
  c_tm : timers;
  c_owns : bool;          (* does this thread own the mutex? *)
  c_ev : list event
}.

Inductive res (A : Type) :=
| Done (a : A) (c : cstate)
| Fatal (c : cstate).     (* a CHECK failed *)
Arguments Done {A} a c.
Arguments Fatal {A} c.

Definition M (A : Type) := cstate -> res A.

Definition ret {A} (a : A) : M A := fun c => Done a c.
Definition bind {A B} (m : M A) (k : A -> M B) : M B :=
  fun c => match m c with
           | Done a c' => k a c'
           | Fatal c' => Fatal c'
           end.

Declare Scope m_scope.
Delimit Scope m_scope with m.
Notation "x <- m ;; k" := (bind m (fun x => k))
  (at level 61, m at next level, right associativity) : m_scope.
Notation "m ;; k" := (bind m (fun _ => k))
  (at level 61, right associativity) : m_scope.
Open Scope m_scope.

Definition emit (e : event) : M unit :=
  fun c => Done tt (CS (c_tk c) (c_tm c) (c_owns c) (c_ev c ++ [e])).
Definition load {A} (f : task -> A) : M A :=
  fun c => Done (f (c_tk c)) c.
Definition store (f : task -> task) : M unit :=
  fun c => Done tt (CS (f (c_tk c)) (c_tm c) (c_owns c) (c_ev c)).
Definition CHECK (b : bool) : M unit :=
  fun c => if b then Done tt c else Fatal c.

Definition lock : M unit :=
  fun c => Done tt (CS (c_tk c) (c_tm c) true (c_ev c ++ [ELock])).
Definition unlock : M unit :=
  fun c => Done tt (CS (c_tk c) (c_tm c) false (c_ev c ++ [EUnlock])).
(** The destructor of [std::unique_lock] / [BAIDU_SCOPED_LOCK]. *)
Definition scope_exit : M unit :=
  fun c => if c_owns c then unlock c else Done tt c.
Definition locked {A} (body : M A) : M A :=
  lock ;; a <- body ;; scope_exit ;; ret a.

(** [raft_timer_del(_timer)]: 0 on success. *)
Definition raft_timer_del : M Z :=
  fun c =>
    let h := timer (c_tk c) in
    if outstanding h (c_tm c)
    then Done 0 (CS (c_tk c) (cancel h (c_tm c)) (c_owns c) (c_ev c ++ [ETimerDel h 0]))
    else Done 1 (CS (c_tk c) (c_tm c) (c_owns c) (c_ev c ++ [ETimerDel h 1])).

(** [raft_timer_add(&_timer, _next_duetime, on_timedout, this)]: 0 on
    success, and then [_timer] names the new registration. *)
Definition raft_timer_add (e : env) : M Z :=
  fun c =>
    let ts := c_tm c in
    let due := next_duetime (c_tk c) in
    let n := List.length (pending ts) in
    if timer_add_ok e
    then Done 0 (CS (set_timer (S (next_id ts)) (c_tk c))
                    (Timers (pending ts ++ [(S (next_id ts), due)]) (S (next_id ts)))
                    (c_owns c) (c_ev c ++ [ETimerAdd n due 0]))
    else Done (-1) (CS (c_tk c) ts (c_owns c) (c_ev c ++ [ETimerAdd n due (-1)])).

(** Modelled from the spec: [base::milliseconds_from_now] (not part of this
    file), "computes the next due-time as now + adjusted period". *)
Definition milliseconds_from_now (e : env) (ms : Z) : Z := now e + ms.

(** Modelled from the spec: the default of the hook [adjust_timeout_ms]
    (declared in the header, not part of this file), "optional period
    perturbation (defaults to identity)". *)
Definition default_adjust_timeout_ms (timeout : Z) : Z := timeout.

Section RepeatedTimerTask.

(** The virtual hook [adjust_timeout_ms] of the embedding protocol. *)
Variable adjust_timeout_ms : Z -> Z.

(** ** The member functions *)

(** The constructor, lines 12-18 ([_next_duetime] is left as it is; the
    model takes 0). *)
Definition RepeatedTimerTask : task :=
  Task 0 true false false false 0 raft_timer_t0.

(** The [CHECK]s of the destructor, lines 20-24. *)
Definition destructor_checks (t : task) : bool :=
  negb (running t) && destroyed t.

(** [init], lines 26-33. It takes no lock and returns 0. *)
Definition init (timeout : Z) (t : task) : Z * task :=
  let t := set_timeout_ms timeout t in
  let t := set_destroyed false t in
  let t := set_stopped true t in
  let t := set_running false t in
  let t := set_timer raft_timer_t0 t in
  (0, t).

(** [schedule], lines 105-113, entered with the mutex held. [Some
    PDispatch]: the mutex was released and [on_timedout(this)] is called;
    [None]: it returns to its caller, which still holds the mutex. *)
Definition schedule (e : env) : M (option pc) :=
  t <- load timeout_ms ;;
  store (set_next_duetime (milliseconds_from_now e (adjust_timeout_ms t))) ;;
  rc <- raft_timer_add e ;;
  if negb (rc =? 0) then
    unlock ;;
    ret (Some PDispatch)
  else ret None.

(** [stop], lines 35-45. *)
Definition stop : M (option pc) :=
  locked (
    s <- load stopped ;;
    if s then ret None else
    store (set_stopped true) ;;
    r <- load running ;; CHECK r ;;
    rc <- raft_timer_del ;;
    if rc =? 0 then
      store (set_running false) ;;
      ret None
    else ret None).

(** [on_timedout()], lines 48-50. *)
Definition on_timedout_enter : M (option pc) :=
  lock ;;
  store (set_invoking true) ;;
  unlock ;;
  ret (Some PRun).

(** [on_timedout()], lines 53-63; [lck] is the lock of line 48. *)
Definition on_timedout_reconcile (e : env) : M (option pc) :=
  lock ;;
  store (set_invoking false) ;;
  r <- load running ;; CHECK r ;;
  s <- load stopped ;;
  k <- (if s then
          d <- load destroyed ;;
          (if d then
             t <- load (fun t => t) ;; emit (EOnDestroy t)
           else ret tt) ;;
          store (set_running false) ;;
          ret None
        else schedule e) ;;
  scope_exit ;;
  ret k.

(** [start], lines 66-85. *)
Definition start (e : env) : M (option pc) :=
  locked (
    d <- load destroyed ;;
    if d then ret None else
    s <- load stopped ;;
    if negb s then ret None else
    store (set_stopped false) ;;
    r <- load running ;;
    if r then ret None else
    store (set_running true) ;;
    schedule e).

(** [reset()], lines 115-124. *)
Definition reset (e : env) : M (option pc) :=
  locked (
    s <- load stopped ;;
    if s then ret None else
    r <- load running ;; CHECK r ;;
    rc <- raft_timer_del ;;
    if rc =? 0 then schedule e
    else ret None).

(** [reset(int timeout_ms)], lines 126-136. *)
Definition reset_to (e : env) (timeout : Z) : M (option pc) :=
  locked (
    store (set_timeout_ms timeout) ;;
    s <- load stopped ;;
    if s then ret None else
    r <- load running ;; CHECK r ;;
    rc <- raft_timer_del ;;
    if rc =? 0 then schedule e
    else ret None).

(** [destroy], lines 138-158. [Some PHook]: the mutex was released and
    [on_destroy()] is called next. *)
Definition destroy : M (option pc) :=
  locked (
    d <- load destroyed ;;
    if d then ret None else
    store (set_destroyed true) ;;
    r <- load running ;;
    if negb r then
      s <- load stopped ;; CHECK s ;;
      unlock ;;
      ret (Some PHook)
    else
    s <- load stopped ;;
    if s then ret None else
    store (set_stopped true) ;;
    rc <- raft_timer_del ;;
    if rc =? 0 then
      store (set_running false) ;;
      unlock ;;
      ret (Some PHook)
    else
    r <- load running ;; CHECK r ;;
    ret None).


(** ** describe, lines 160-186 *)

(** [os << n] for an integer: its decimal digits. *)
Definition string_of_Z (z : Z) : string := NilZero.string_of_int (Z.to_int z).

(** Modelled from the spec: [base::timespec_to_milliseconds] and
    [base::gettimeofday_ms] (not part of this file); "N is the milliseconds
    until the due-time", with the due-time kept in milliseconds. *)
Definition timespec_to_milliseconds (due : Z) : Z := due.
Definition gettimeofday_ms (e : env) : Z := now e.

Definition when (b : bool) (m : M unit) : M unit := if b then m else ret tt.

(** Every [os << x] is one [EWrite]. *)
Definition describe (e : env) (use_html : bool) : M unit :=
  lock ;;
  stopped_ <- load stopped ;;
  running_ <- load running ;;
  destroyed_ <- load destroyed ;;
  invoking_ <- load invoking ;;
  duetime <- load next_duetime ;;
  timeout_ms_ <- load timeout_ms ;;
  unlock ;;
  emit (EWrite "timeout(") ;; emit (EWrite (string_of_Z timeout_ms_)) ;;
  emit (EWrite "ms)") ;;
  when destroyed_ (emit (EWrite " DESTROYED")) ;;
  when stopped_ (emit (EWrite " STOPPED")) ;;
  when running_
    (if invoking_ then emit (EWrite " INVOKING")
     else
       emit (EWrite " SCHEDULING(in ") ;;
       emit (EWrite (string_of_Z
                       (timespec_to_milliseconds duetime - gettimeofday_ms e))) ;;
       emit (EWrite "ms)")) ;;
  scope_exit.

(** What reached the stream. *)
Fixpoint written (l : list event) : string :=
  match l with
  | [] => EmptyString
  | EWrite s :: l' => append s (written l')
  | _ :: l' => written l'
  end.

Definition is_status_tag (s : string) : bool :=
  String.eqb s " DESTROYED" || String.eqb s " STOPPED" ||
  String.eqb s " INVOKING" || String.eqb s " SCHEDULING(in ".

(** The number of status tags sent to the stream. *)
Fixpoint status_tags (l : list event) : nat :=
  match l with
  | [] => 0%nat
  | EWrite s :: l' => (Nat.b2n (is_status_tag s) + status_tags l')%nat
  | _ :: l' => status_tags l'
  end.

(** ** Reading a trace *)

(** Is the mutex held after the events [l], when [h] tells whether it was
    held before? *)
Fixpoint held_after (h : bool) (l : list event) : bool :=
  match l with
  | [] => h
  | ELock :: l' => held_after true l'
  | EUnlock :: l' => held_after false l'
  | _ :: l' => held_after h l'
  end.

(** Every event selected by [p] happens with the mutex free. *)
Fixpoint unlocked (p : event -> bool) (h : bool) (l : list event) : bool :=
  match l with
  | [] => true
  | ev :: l' => (negb (p ev) || negb h) && unlocked p (held_after h [ev]) l'
  end.

Definition is_run (ev : event) : bool :=
  match ev with ERun => true | _ => false end.
Definition is_write (ev : event) : bool :=
  match ev with EWrite _ => true | _ => false end.
Definition is_on_destroy (ev : event) : bool :=
  match ev with EOnDestroy _ => true | _ => false end.
Definition is_timer_add (ev : event) : bool :=
  match ev with ETimerAdd _ _ _ => true | _ => false end.

Definition count_ev (p : event -> bool) (l : list event) : nat :=
  List.length (filter p l).

(** Every registration was asked for when none was outstanding. *)
Definition add_when_free (ev : event) : Prop :=
  match ev with ETimerAdd n _ _ => n = 0%nat | _ => True end.

(** The hook found the task stopped and destroyed. *)
Definition hook_when_final (ev : event) : Prop :=
  match ev with
  | EOnDestroy t => stopped t = true /\ destroyed t = true
  | _ => True
  end.

(** ** Threads and interleavings *)

Inductive op := OStart | OStop | OReset | OResetTo (timeout : Z) | ODestroy.

(** On whose behalf a thread runs: inside a call of a public operation
    (the operation has not returned yet), on the thread of the timer
    subsystem that delivers a fire, or on a bthread started by
    [bthread_start_background]. *)
Inductive ctx := InCall (o : op) | InTimer | InWorker.

Record thread := Th { t_ctx : ctx; t_pc : pc }.

Record world := World {
  tk : task;
  tm : timers;
  threads : list thread;
  log : list event
}.

Inductive action :=
| ACall (o : op)      (* a caller runs a public operation up to its first
                         release of the mutex *)
| AFire (h : handle)  (* the timer subsystem delivers registration h *)
| AThread (i : nat).  (* thread i takes its next step *)

Inductive outcome := Next (w : world) | Crash | Stuck.

Definition method (e : env) (o : op) : M (option pc) :=
  match o with
  | OStart => start e
  | OStop => stop
  | OReset => reset e
  | OResetTo t => reset_to e t
  | ODestroy => destroy
  end.

Fixpoint drop_nth {A} (i : nat) (l : list A) : list A :=
  match l, i with
  | [], _ => []
  | _ :: l', O => l'
  | x :: l', S i' => x :: drop_nth i' l'
  end.

Definition enter (w : world) : cstate := CS (tk w) (tm w) false [].

Definition continue (who : ctx) (k : option pc) : list thread :=
  match k with Some p => [Th who p] | None => [] end.

(** A critical section ends: the thread goes on at [k] or has returned. *)
Definition leave (who : ctx) (others : list thread) (lg : list event)
    (r : res (option pc)) : outcome :=
  match r with
  | Fatal _ => Crash
  | Done k c => Next (World (c_tk c) (c_tm c) (others ++ continue who k) (lg ++ c_ev c))
  end.

Definition step (e : env) (a : action) (w : world) : outcome :=
  match a with
  | ACall o => leave (InCall o) (threads w) (log w) (method e o (enter w))
  | AFire h =>
      if outstanding h (tm w)
      then Next (World (tk w) (cancel h (tm w))
                       (threads w ++ [Th InTimer PDispatch]) (log w))
      else Stuck
  | AThread i =>
      match nth_error (threads w) i with
      | None => Stuck
      | Some th =>
          let rest := drop_nth i (threads w) in
          match t_pc th with
          | PDispatch =>
              (* lines 98-102: a bthread runs on_timedout(), or, when none
                 can be started, this thread does *)
              Next (World (tk w) (tm w)
                      (rest ++ [Th (if bthread_ok e then InWorker else t_ctx th) PEnter])
                      (log w))
          | PEnter => leave (t_ctx th) rest (log w) (on_timedout_enter (enter w))
          | PRun =>
              Next (World (tk w) (tm w) (rest ++ [Th (t_ctx th) PReconcile])
                      (log w ++ [ERun]))
          | PReconcile =>
              leave (t_ctx th) rest (log w) (on_timedout_reconcile e (enter w))
          | PHook =>
              Next (World (tk w) (tm w) rest (log w ++ [EOnDestroy (tk w)]))
          end
      end
  end.

Fixpoint exec (w : world) (tr : list (env * action)) : outcome :=
  match tr with
  | [] => Next w
  | (e, a) :: tr' =>
      match step e a w with
      | Next w' => exec w' tr'
      | o => o
      end
  end.

(** The object right after construction and [init], nothing registered,
    no thread inside. *)
Definition world0 (timeout : Z) : world :=
  World (snd (init timeout RepeatedTimerTask)) (Timers [] 0%nat) [] [].

Inductive reachable (timeout : Z) : world -> Prop :=
| reach_init : reachable timeout (world0 timeout)
| reach_step w e a w' :
    reachable timeout w -> step e a w = Next w' -> reachable timeout w'.

Definition count_pc (f : pc -> bool) (l : list thread) : nat :=
  List.length (filter (fun th => f (t_pc th)) l).

Definition in_flight (p : pc) : bool :=
  match p with PHook => false | _ => true end.
Definition in_action (p : pc) : bool :=
  match p with PRun | PReconcile => true | _ => false end.
Definition at_hook (p : pc) : bool :=
  match p with PHook => true | _ => false end.

(** What holds whenever the mutex is free. *)
Record Inv (w : world) : Prop := {
  inv_pending :
    pending (tm w) = [] \/
    (stopped (tk w) = false /\ exists due, pending (tm w) = [(timer (tk w), due)]);
  inv_running :
    (List.length (pending (tm w)) + count_pc in_flight (threads w))%nat
    = Nat.b2n (running (tk w));
  inv_stopped : stopped (tk w) = false -> running (tk w) = true;
  inv_destroyed : destroyed (tk w) = true -> stopped (tk w) = true;
  inv_invoking : count_pc in_action (threads w) = Nat.b2n (invoking (tk w));
  inv_hook :
    (count_ev is_on_destroy (log w) + count_pc at_hook (threads w))%nat
    = Nat.b2n (destroyed (tk w) && negb (running (tk w)));
  inv_adds : Forall add_when_free (log w);
  inv_seen : Forall hook_when_final (log w);
  inv_run : unlocked is_run false (log w) = true;
  inv_free : held_after false (log w) = false
}.

Definition is_lock (ev : event) : bool :=
  match ev with ELock => true | _ => false end.
Definition is_unlock (ev : event) : bool :=
  match ev with EUnlock => true | _ => false end.

(** A callback that has not called [run()] yet. *)
Definition before_run (p : pc) : bool :=
  match p with PDispatch | PEnter | PRun => true | _ => false end.

(** Every call of [run()] is paid for by a call of [raft_timer_add]:
    the calls of [run()] made, the callbacks that still have to make
    theirs and the registrations that can still fire are no more than
    the calls of [raft_timer_add]. *)
Definition Budget (w : world) : Prop :=
  (count_ev is_run (log w) + count_pc before_run (threads w)
   + List.length (pending (tm w)) <= count_ev is_timer_add (log w))%nat.

(** The period that [reset()] or [reset(int)] leaves in the task. *)
Definition period_after (o : op) (t : task) : Z :=
  match o with OResetTo timeout => timeout | _ => timeout_ms t end.

Definition is_reset (o : op) : bool :=
  match o with OReset | OResetTo _ => true | _ => false end.

(** A step of a trace that is not a call of [start()]. *)
Definition not_start (ea : env * action) : Prop := snd ea <> ACall OStart.

(** ** Scenarios *)

(** Everything succeeds, at time [t]. *)
Definition ok (t : Z) : env := Env t true true.
(** [raft_timer_add] fails; a bthread can be started. *)
Definition no_timer (t : Z) : env := Env t false true.
(** [raft_timer_add] fails and no bthread can be started. *)
Definition no_timer_no_bthread (t : Z) : env := Env t false false.

(** [init(100)], [start()], and the registration fires. *)
Definition to_fired : list (env * action) :=
  [(ok 0, ACall OStart); (ok 100, AFire 1%nat)].
Definition w_fired : world :=
  World (Task 100 false true false false 100 1%nat) (Timers [] 1%nat)
    [Th InTimer PDispatch] [ELock; ETimerAdd 0 100 0; EUnlock].

(** ... and the callback has reached [run()] on a bthread. *)
Definition to_invoking : list (env * action) :=
  to_fired ++ [(ok 100, AThread 0); (ok 101, AThread 0)].
Definition w_invoking : world :=
  World (Task 100 false true false true 100 1%nat) (Timers [] 1%nat)
    [Th InWorker PRun] [ELock; ETimerAdd 0 100 0; EUnlock; ELock; EUnlock].

(** ... and [run()] has returned. *)
Definition to_invoked : list (env * action) :=
  to_invoking ++ [(ok 102, AThread 0)].
Definition w_invoked : world :=
  World (Task 100 false true false true 100 1%nat) (Timers [] 1%nat)
    [Th InWorker PReconcile]
    [ELock; ETimerAdd 0 100 0; EUnlock; ELock; EUnlock; ERun].

(** [init(100)], [start()], the registration fires, [stop()] comes too
    late. *)
Definition to_stop_pending : list (env * action) :=
  to_fired ++ [(ok 101, ACall OStop)].
Definition w_stop_pending : world :=
  World (Task 100 true true false false 100 1%nat) (Timers [] 1%nat)
    [Th InTimer PDispatch]
    [ELock; ETimerAdd 0 100 0; EUnlock; ELock; ETimerDel 1%nat 1; EUnlock].

(** ... the callback has called [run()] and is about to reconcile. *)
Definition to_reconciling : list (env * action) :=
  to_stop_pending ++
  [(ok 102, AThread 0); (ok 103, AThread 0); (ok 104, AThread 0)].
Definition w_reconciling : world :=
  World (Task 100 true true false true 100 1%nat) (Timers [] 1%nat)
    [Th InWorker PReconcile]
    [ELock; ETimerAdd 0 100 0; EUnlock; ELock; ETimerDel 1%nat 1; EUnlock;
     ELock; EUnlock; ERun].

(** ... and the callback has run to its end. *)
Definition to_stopped : list (env * action) :=
  to_reconciling ++ [(ok 105, AThread 0)].
Definition w_stopped : world :=
  World (Task 100 true false false false 100 1%nat) (Timers [] 1%nat) []
    [ELock; ETimerAdd 0 100 0; EUnlock; ELock; ETimerDel 1%nat 1; EUnlock;
     ELock; EUnlock; ERun; ELock; EUnlock].

(** [init(100)] and [start()]: the registration is outstanding. *)
Definition to_scheduled : list (env * action) := [(ok 0, ACall OStart)].
Definition w_scheduled : world :=
  World (Task 100 false true false false 100 1%nat) (Timers [(1%nat, 100)] 1%nat)
    [] [ELock; ETimerAdd 0 100 0; EUnlock].

(** [init(100)] and [destroy()], before the hook is called. *)
Definition w_destroyed : world :=
  World (Task 100 true false true false 0 0%nat) (Timers [] 0%nat)
    [Th (InCall ODestroy) PHook] [ELock; EUnlock].

(** [init(50)], [start()], the registration fires, [destroy()] comes too
    late, the callback runs to its end. *)
Definition to_deferred_destroy : list (env * action) :=
  [(ok 0, ACall OStart); (ok 50, AFire 1%nat); (ok 50, AThread 0);
   (ok 51, ACall ODestroy); (ok 52, AThread 0); (ok 53, AThread 0);
   (ok 54, AThread 0)].
Definition seen_by_deferred_hook : task :=
  Task 50 true true true false 50 1%nat.
Definition w_deferred_destroy : world :=
  World (Task 50 true false true false 50 1%nat) (Timers [] 1%nat) []
    ([ELock; ETimerAdd 0 50 0; EUnlock; ELock; ETimerDel 1%nat 1; EUnlock;
      ELock; EUnlock; ERun; ELock]
     ++ EOnDestroy seen_by_deferred_hook :: [EUnlock]).

(** [init(50)], [start()], [destroy()] cancels, the hook is called. *)
Definition to_destroy_at_once : list (env * action) :=
  [(ok 0, ACall OStart); (ok 1, ACall ODestroy); (ok 2, AThread 0)].
Definition seen_by_direct_hook : task :=
  Task 50 true false true false 50 1%nat.
Definition w_destroy_at_once : world :=
  World seen_by_direct_hook (Timers [] 1%nat) []
    ([ELock; ETimerAdd 0 50 0; EUnlock; ELock; ETimerDel 1%nat 0; EUnlock]
     ++ [EOnDestroy seen_by_direct_hook]).

(** ** Counting lemmas *)

Arguments count_pc : simpl never.
Arguments count_ev : simpl never.

Lemma count_pc_nil f : count_pc f [] = 0%nat.
Proof. reflexivity. Qed.

Lemma count_pc_cons f th l :
  count_pc f (th :: l) = (Nat.b2n (f (t_pc th)) + count_pc f l)%nat.
Proof. unfold count_pc. simpl. now destruct (f (t_pc th)). Qed.

Lemma count_ev_nil p : count_ev p [] = 0%nat.
Proof. reflexivity. Qed.

Lemma count_ev_cons p ev l :
  count_ev p (ev :: l) = (Nat.b2n (p ev) + count_ev p l)%nat.
Proof. unfold count_ev. simpl. now destruct (p ev). Qed.

Lemma count_pc_app f l1 l2 :
  count_pc f (l1 ++ l2) = (count_pc f l1 + count_pc f l2)%nat.
Proof. unfold count_pc. now rewrite filter_app, length_app. Qed.

Lemma count_pc_drop_nth f i l th :
  nth_error l i = Some th ->
  count_pc f l = (count_pc f (drop_nth i l) + Nat.b2n (f (t_pc th)))%nat.
Proof.
  revert i. induction l as [|x l IH]; intros [|i] H; simpl in H; try discriminate.
  - injection H as ->. unfold count_pc. simpl.
    destruct (f (t_pc th)); simpl; lia.
  - specialize (IH _ H). unfold count_pc in *. simpl.
    destruct (f (t_pc x)); simpl; lia.
Qed.

Lemma count_action_le_flight l :
  (count_pc in_action l <= count_pc in_flight l)%nat.
Proof.
  induction l as [|[c p] l IH]; rewrite ?count_pc_nil, ?count_pc_cons; auto.
  destruct p; cbn; lia.
Qed.

Lemma count_ev_app p l1 l2 :
  count_ev p (l1 ++ l2) = (count_ev p l1 + count_ev p l2)%nat.
Proof. unfold count_ev. now rewrite filter_app, length_app. Qed.

Lemma held_after_app l1 : forall h l2,
  held_after h (l1 ++ l2) = held_after (held_after h l1) l2.
Proof. induction l1 as [|[] l1 IH]; intros; simpl; auto. Qed.

Lemma unlocked_app p l1 : forall h l2,
  unlocked p h (l1 ++ l2) = unlocked p h l1 && unlocked p (held_after h l1) l2.
Proof.
  induction l1 as [|ev l1 IH]; intros; simpl; auto.
  rewrite IH, andb_assoc. now destruct ev.
Qed.

Lemma unlocked_split p l : forall h pre ev post,
  unlocked p h l = true -> l = pre ++ ev :: post -> p ev = true ->
  held_after h pre = false.
Proof.
  intros h pre ev post H -> Hp. rewrite unlocked_app in H.
  apply andb_prop in H as [_ H]. simpl in H. rewrite Hp in H.
  now destruct (held_after h pre).
Qed.

(** ** The invariant is kept by every step *)

Ltac inv_log :=
  repeat rewrite ?count_pc_app, ?count_ev_app, ?held_after_app, ?unlocked_app,
    ?count_pc_cons, ?count_pc_nil, ?count_ev_cons, ?count_ev_nil;
  cbn.

Ltac inv_fields :=
  constructor; cbn in *; inv_log;
  repeat match goal with
  | H : _ = true |- _ => rewrite H
  | H : _ = false |- _ => rewrite H
  end; cbn;
  try solve
    [ auto | discriminate | congruence | lia
    | right; split; eauto
    | apply Forall_app; split; auto; repeat constructor ].

Ltac run_m :=
  unfold step, leave, method, enter, start, stop, reset, reset_to, destroy,
    on_timedout_enter, on_timedout_reconcile, schedule, locked, bind, ret, load,
    store, emit, CHECK, lock, unlock, scope_exit, raft_timer_del, raft_timer_add,
    outstanding, cancel;
  cbn; rewrite ?Nat.eqb_refl; cbn; rewrite ?app_nil_r.

Lemma call_inv e o w w' :
  Inv w -> step e (ACall o) w = Next w' -> Inv w'.
Proof.
  destruct w as [[t s r d iv nd tmr] [pend nid] ths lg].
  destruct e as [clk addok bok].
  intros [Hp Hr Hs Hd Hi Hh Ha Hw Hu Hf]; cbn in *.
  destruct Hp as [-> | [Hs0 [due ->]]];
    destruct o; destruct s, r, d, addok;
    run_m;
    intros H; try discriminate H; injection H as <-;
    try (specialize (Hs eq_refl)); try (specialize (Hd eq_refl));
    try discriminate; try (cbn in Hr; lia);
    inv_fields.
Qed.

Lemma call_no_crash e o w : Inv w -> step e (ACall o) w <> Crash.
Proof.
  destruct w as [[t s r d iv nd tmr] [pend nid] ths lg].
  destruct e as [clk addok bok].
  intros [Hp Hr Hs Hd Hi Hh Ha Hw Hu Hf]; cbn in *.
  destruct Hp as [-> | [Hs0 [due ->]]];
    destruct o; destruct s, r, d, addok;
    run_m; try discriminate;
    try (specialize (Hs eq_refl)); try (specialize (Hd eq_refl));
    try discriminate; cbn in Hr; lia.
Qed.

Lemma fire_inv e h w w' :
  Inv w -> step e (AFire h) w = Next w' -> Inv w'.
Proof.
  destruct w as [[t s r d iv nd tmr] [pend nid] ths lg].
  intros [Hp Hr Hs Hd Hi Hh Ha Hw Hu Hf]; cbn in *.
  destruct Hp as [-> | [Hs0 [due ->]]]; unfold step, outstanding, cancel; cbn;
    try discriminate.
  destruct (Nat.eqb tmr h); cbn; try discriminate.
  intros H; injection H as <-.
  destruct s, d, r; cbn in Hr; try lia; try discriminate;
    try (now specialize (Hd eq_refl)); inv_fields.
Qed.

Lemma thread_inv e i w w' :
  Inv w -> step e (AThread i) w = Next w' -> Inv w'.
Proof.
  destruct w as [[t s r d iv nd tmr] [pend nid] ths lg].
  destruct e as [clk addok bok].
  intros [Hp Hr Hs Hd Hi Hh Ha Hw Hu Hf]; cbn in *.
  unfold step; cbn.
  destruct (nth_error ths i) as [[c p]|] eqn:Hn; try discriminate.
  pose proof (count_pc_drop_nth in_flight _ _ _ Hn) as F1.
  pose proof (count_pc_drop_nth in_action _ _ _ Hn) as F2.
  pose proof (count_pc_drop_nth at_hook _ _ _ Hn) as F3.
  pose proof (count_action_le_flight (drop_nth i ths)) as F4.
  cbn in F1, F2, F3.
  destruct Hp as [-> | [Hs0 [due ->]]];
    destruct p; destruct s, r, d, iv, addok;
    run_m;
    intros H; try discriminate H; injection H as <-;
    try (specialize (Hs eq_refl)); try (specialize (Hd eq_refl));
    try discriminate; cbn in *; try lia;
    inv_fields.
Qed.

Lemma thread_no_crash e i w : Inv w -> step e (AThread i) w <> Crash.
Proof.
  destruct w as [[t s r d iv nd tmr] [pend nid] ths lg].
  destruct e as [clk addok bok].
  intros [Hp Hr Hs Hd Hi Hh Ha Hw Hu Hf]; cbn in *.
  unfold step; cbn.
  destruct (nth_error ths i) as [[c p]|] eqn:Hn; try discriminate.
  pose proof (count_pc_drop_nth in_flight _ _ _ Hn) as F1.
  cbn in F1.
  destruct p; destruct s, r, d, addok;
    run_m; try discriminate; cbn in *; lia.
Qed.

Lemma step_inv e a w w' : Inv w -> step e a w = Next w' -> Inv w'.
Proof.
  destruct a; eauto using call_inv, fire_inv, thread_inv.
Qed.

Lemma step_no_crash e a w : Inv w -> step e a w <> Crash.
Proof.
  destruct a; auto using call_no_crash, thread_no_crash.
  intros _. unfold step. now destruct (outstanding h (tm w)).
Qed.

Lemma world0_inv timeout : Inv (world0 timeout).
Proof. constructor; cbn; auto; discriminate. Qed.

Lemma reachable_inv timeout w : reachable timeout w -> Inv w.
Proof.
  induction 1; eauto using world0_inv, step_inv.
Qed.

Lemma exec_reachable timeout tr : forall w w',
  reachable timeout w -> exec w tr = Next w' -> reachable timeout w'.
Proof.
  induction tr as [|[e a] tr IH]; simpl; intros w w' R H.
  - now injection H as <-.
  - destruct (step e a w) as [w1| |] eqn:S1; try discriminate.
    eauto using reach_step.
Qed.

Lemma nth_error_last {A} (l : list A) x :
  nth_error (l ++ [x]) (List.length l) = Some x.
Proof. induction l; simpl; auto. Qed.

Lemma drop_nth_last {A} (l : list A) x :
  drop_nth (List.length l) (l ++ [x]) = l.
Proof. induction l; simpl; congruence. Qed.

Lemma thread_not_stuck e i w th :
  nth_error (threads w) i = Some th -> step e (AThread i) w <> Stuck.
Proof.
  intros Hn. unfold step. rewrite Hn. unfold leave. cbv zeta.
  destruct (t_pc th); try discriminate.
  destruct (on_timedout_reconcile e (enter w)); discriminate.
Qed.

(** While nobody calls [start()], a stopped task stays stopped and
    [raft_timer_add] is not called. *)
Lemma step_stays_stopped e a w w' :
  Inv w -> stopped (tk w) = true -> a <> ACall OStart ->
  step e a w = Next w' ->
  stopped (tk w') = true /\
  count_ev is_timer_add (log w') = count_ev is_timer_add (log w).
Proof.
  destruct w as [[t s r d iv nd tmr] [pend nid] ths lg].
  destruct e as [clk addok bok].
  intros [Hp Hr Hs Hd Hi Hh Ha Hw Hu Hf] E N; cbn in *. subst s.
  destruct Hp as [-> | [Hs0 _]]; try discriminate.
  destruct a as [o|h|i].
  - destruct o; try congruence; destruct r, d; run_m;
      intros H; try discriminate H; injection H as <-; cbn; inv_log; auto.
  - unfold step; cbn. discriminate.
  - unfold step; cbn. destruct (nth_error ths i) as [[c p]|]; try discriminate.
    destruct p; destruct r, d; run_m;
      intros H; try discriminate H; injection H as <-; cbn; inv_log; auto.
Qed.

Lemma exec_stays_stopped tr : forall w w',
  Inv w -> stopped (tk w) = true -> Forall not_start tr ->
  exec w tr = Next w' ->
  Inv w' /\ stopped (tk w') = true /\
  count_ev is_timer_add (log w') = count_ev is_timer_add (log w).
Proof.
  induction tr as [|[e a] tr IH]; simpl; intros w w' I S F H.
  - injection H as <-. auto.
  - destruct (step e a w) as [w1| |] eqn:S1; try discriminate.
    inversion F as [|x l N F' Eq]; subst.
    destruct (step_stays_stopped _ _ _ _ I S N S1) as [S2 C2].
    destruct (IH w1 w' (step_inv _ _ _ _ I S1) S2 F' H) as [I' [S' C']].
    split; [exact I'|]. split; [exact S'|]. congruence.
Qed.

(** ** The claims *)

(** C1. A [stop()] that comes while a fire is in flight cannot cancel
    ([raft_timer_del] returns 1): it leaves [stopped] and [running] both
    true and touches nothing else. When the callback then reaches its
    reconciliation and finds [stopped] true, it clears [running], makes no
    call of [raft_timer_add], and the task is stopped with nothing
    registered and no callback in flight. However the steps that follow
    the [stop()] interleave, as long as nobody calls [start()] the task
    stays stopped, nothing is registered, [raft_timer_add] is not called,
    and [running] is false as soon as no callback is in flight. *)
Theorem stop_during_fire_ends_stopped timeout w :
  reachable timeout w ->
  stopped (tk w) = false ->
  (0 < count_pc in_flight (threads w))%nat ->
  (forall e, exists w1,
     step e (ACall OStop) w = Next w1 /\
     stopped (tk w1) = true /\ running (tk w1) = true /\
     tk w1 = set_stopped true (tk w) /\
     tm w1 = tm w /\ threads w1 = threads w /\
     log w1 = log w ++ [ELock; ETimerDel (timer (tk w)) 1; EUnlock]) /\
  (forall w2 e i c,
     reachable timeout w2 ->
     stopped (tk w2) = true ->
     nth_error (threads w2) i = Some (Th c PReconcile) ->
     exists w3,
       step e (AThread i) w2 = Next w3 /\
       stopped (tk w3) = true /\ running (tk w3) = false /\
       pending (tm w3) = [] /\
       count_pc in_flight (threads w3) = 0%nat /\
       count_ev is_timer_add (log w3) = count_ev is_timer_add (log w2)) /\
  (forall e w1 tr w',
     step e (ACall OStop) w = Next w1 ->
     Forall not_start tr ->
     exec w1 tr = Next w' ->
     stopped (tk w') = true /\
     pending (tm w') = [] /\
     count_ev is_timer_add (log w') = count_ev is_timer_add (log w) /\
     (count_pc in_flight (threads w') = 0%nat -> running (tk w') = false)).
Proof.
  intros R Hst Hfl. split; [|split].
  - intros e. apply reachable_inv in R.
    destruct w as [[t s r d iv nd tmr] [pend nid] ths lg].
    destruct R as [Hp Hr Hs Hd Hi Hh Ha Hw Hu Hf]; cbn in *. subst s.
    rewrite (Hs eq_refl) in *. cbn in Hr.
    destruct pend as [|x pend]; cbn in Hr; try lia.
    run_m. eexists; repeat split.
  - clear. intros w2 e i c R Hst Hn.
    pose proof (reachable_inv _ _ R) as I.
    destruct (step e (AThread i) w2) as [w3| |] eqn:S3.
    + pose proof (step_inv _ _ _ _ I S3) as I3.
      exists w3. split; auto.
      destruct w2 as [[t s r d iv nd tmr] [pend nid] ths lg].
      destruct I as [Hp Hr Hs Hd Hi Hh Ha Hw Hu Hf]; cbn in *. subst s.
      pose proof (count_pc_drop_nth in_flight _ _ _ Hn) as F1. cbn in F1.
      destruct Hp as [-> | [Hs0 _]]; try discriminate.
      unfold step in S3; cbn in S3. rewrite Hn in S3. cbn in S3.
      destruct r; cbn in Hr; try lia.
      destruct d; revert S3; run_m; intros S3; injection S3 as <-; cbn;
        inv_log; repeat split; auto; lia.
    + now apply step_no_crash in S3.
    + now apply (thread_not_stuck _ _ _ _ Hn) in S3.
  - intros e w1 tr w' S1 F E.
    pose proof (reachable_inv _ _ R) as I.
    pose proof (step_inv _ _ _ _ I S1) as I1.
    assert (stopped (tk w1) = true /\
            count_ev is_timer_add (log w1) = count_ev is_timer_add (log w))
      as [St1 C1].
    { revert S1. clear - I Hst.
      destruct w as [[t s r d iv nd tmr] [pend nid] ths lg].
      destruct e as [clk addok bok].
      destruct I as [Hp Hr Hs Hd Hi Hh Ha Hw Hu Hf]; cbn in *. subst s.
      rewrite (Hs eq_refl).
      destruct Hp as [-> | [_ [due ->]]]; run_m;
        intros H; injection H as <-; cbn; inv_log; auto. }
    destruct (exec_stays_stopped tr w1 w' I1 St1 F E) as [I' [S' C']].
    destruct I' as [Hp Hr Hs Hd Hi Hh Ha Hw Hu Hf].
    destruct Hp as [Hp | [Hs0 _]]; try congruence.
    repeat split; auto; try congruence.
    intros Z. rewrite Hp, Z in Hr. cbn in Hr.
    now destruct (running (tk w')).
Qed.

(** C3. Along every interleaving of start, stop, reset, destroy, fires and
    callback steps that begins after [init], at most one registration is
    outstanding, and every call of [raft_timer_add] was made when none was.
    A [start()] on a task whose [running] is true takes and releases the
    mutex, clears [stopped] (unless the task is destroyed) and registers
    nothing; the callback that is then reconciling with [stopped] false is
    the one that calls [raft_timer_add]. *)
Theorem no_double_arm timeout w :
  reachable timeout w ->
  (List.length (pending (tm w)) <= 1)%nat /\
  Forall add_when_free (log w) /\
  (running (tk w) = true ->
   forall e, exists w1,
     step e (ACall OStart) w = Next w1 /\
     tk w1 = (if destroyed (tk w) then tk w else set_stopped false (tk w)) /\
     tm w1 = tm w /\ threads w1 = threads w /\
     log w1 = log w ++ [ELock; EUnlock]) /\
  (stopped (tk w) = false ->
   forall e i c, nth_error (threads w) i = Some (Th c PReconcile) ->
     exists w1 rc,
       step e (AThread i) w = Next w1 /\
       log w1 = log w ++
                [ELock;
                 ETimerAdd 0 (milliseconds_from_now e
                                (adjust_timeout_ms (timeout_ms (tk w)))) rc;
                 EUnlock]).
Proof.
  intros R. apply reachable_inv in R.
  destruct w as [[t s r d iv nd tmr] [pend nid] ths lg].
  destruct R as [Hp Hr Hs Hd Hi Hh Ha Hw Hu Hf]; cbn in *.
  split; [|split; [|split]]; auto.
  - destruct r; cbn in Hr; lia.
  - intros -> e. destruct d, s; run_m; eexists; repeat split.
  - intros -> e i c Hn. specialize (Hs eq_refl); subst r.
    pose proof (count_pc_drop_nth in_flight _ _ _ Hn) as F1. cbn in F1.
    cbn in Hr. destruct pend; cbn in Hr; try lia.
    unfold step; cbn. rewrite Hn; cbn.
    destruct e as [clk [] bok]; run_m; do 2 eexists; split; reflexivity.
Qed.

(** C6. In every reachable state the mutex is free, every [run()] in the
    log happened with the mutex free, and [invoking] implies [running].
    A callback that enters takes the mutex, sets [invoking] and releases
    the mutex before [run()]; [run()] is its next step and changes nothing
    of the task; the step after that starts by taking the mutex again and
    leaves [invoking] false. *)
Theorem run_outside_lock timeout w :
  reachable timeout w ->
  held_after false (log w) = false /\
  (forall pre post, log w = pre ++ ERun :: post -> held_after false pre = false) /\
  (invoking (tk w) = true -> running (tk w) = true) /\
  (forall e i c, nth_error (threads w) i = Some (Th c PEnter) ->
     step e (AThread i) w =
     Next (World (set_invoking true (tk w)) (tm w)
             (drop_nth i (threads w) ++ [Th c PRun])
             (log w ++ [ELock; EUnlock]))) /\
  (forall e i c, nth_error (threads w) i = Some (Th c PRun) ->
     step e (AThread i) w =
     Next (World (tk w) (tm w)
             (drop_nth i (threads w) ++ [Th c PReconcile])
             (log w ++ [ERun]))) /\
  (forall e i c, nth_error (threads w) i = Some (Th c PReconcile) ->
     exists w1 evs,
       step e (AThread i) w = Next w1 /\
       invoking (tk w1) = false /\
       log w1 = log w ++ ELock :: evs).
Proof.
  intros R. pose proof (reachable_inv _ _ R) as I.
  split; [|split; [|split; [|split; [|split]]]].
  - apply I.
  - intros pre post E.
    apply (unlocked_split is_run (log w) false pre ERun post); auto. apply I.
  - destruct I as [Hp Hr Hs Hd Hi Hh Ha Hw Hu Hf].
    pose proof (count_action_le_flight (threads w)) as F.
    intros E. rewrite E in Hi. cbn in Hi.
    destruct (running (tk w)); auto. cbn in Hr. lia.
  - intros e i c Hn. unfold step. rewrite Hn. reflexivity.
  - intros e i c Hn. unfold step. rewrite Hn. reflexivity.
  - intros e i c Hn.
    destruct (step e (AThread i) w) as [w1| |] eqn:S1.
    + exists w1. revert S1. unfold step. rewrite Hn. cbn.
      destruct w as [[t s r d iv nd tmr] [pend nid] ths lg].
      destruct e as [clk addok bok].
      destruct r, s, d, addok; run_m; intros S1; try discriminate;
        injection S1 as <-; eexists; split; cbn; auto; reflexivity.
    + now apply step_no_crash in S1.
    + now apply (thread_not_stuck _ _ _ _ Hn) in S1.
Qed.

(** C10. In every reachable state [stopped = false] implies
    [running = true], and no step taken from a reachable state fails a
    [CHECK]: not the ones of [stop], [reset], [reset(int)] and [destroy],
    and not the one of the reconciliation in [on_timedout]. *)
Theorem checks_never_fail timeout w :
  reachable timeout w ->
  (stopped (tk w) = false -> running (tk w) = true) /\
  (forall e a, step e a w <> Crash).
Proof.
  intros R. apply reachable_inv in R. split.
  - apply R.
  - intros e a. now apply step_no_crash.
Qed.

Lemma step_keeps_destroyed e a w w' :
  step e a w = Next w' -> destroyed (tk w) = true -> destroyed (tk w') = true.
Proof.
  destruct w as [[t s r d iv nd tmr] [pend nid] ths lg].
  destruct e as [clk addok bok]. cbn. intros H ->. revert H.
  destruct a as [o|h|i].
  - destruct o; destruct s, r, addok; run_m;
      try match goal with
          | |- context [existsb ?f pend] => destruct (existsb f pend)
          end; cbn;
      intros H; try discriminate H; now injection H as <-.
  - unfold step.
    destruct (outstanding h _); intros H; try discriminate H.
    now injection H as <-.
  - unfold step; cbn. destruct (nth_error ths i) as [[c p]|]; try discriminate.
    destruct p; destruct s, r, addok; run_m;
      try match goal with
          | |- context [existsb ?f pend] => destruct (existsb f pend)
          end; cbn;
      intros H; try discriminate H; now injection H as <-.
Qed.

(** Support for C2: in the model the hook runs at most once, and exactly
    once as soon as a destroyed task has no thread left inside. *)
Lemma on_destroy_at_most_once timeout w :
  reachable timeout w -> (count_ev is_on_destroy (log w) <= 1)%nat.
Proof.
  intros R. apply reachable_inv in R. destruct R.
  destruct (destroyed (tk w) && negb (running (tk w))); cbn in *; lia.
Qed.

Lemma on_destroy_once_when_quiet timeout w :
  reachable timeout w -> destroyed (tk w) = true -> threads w = [] ->
  count_ev is_on_destroy (log w) = 1%nat /\ running (tk w) = false /\
  pending (tm w) = [].
Proof.
  intros R D T. apply reachable_inv in R.
  destruct R as [Hp Hr Hs Hd Hi Hh Ha Hw Hu Hf].
  rewrite T, count_pc_nil in *. rewrite D in Hh. specialize (Hd D).
  destruct Hp as [Hp | [Hs0 _]]; try congruence.
  rewrite Hp in *. cbn in Hr.
  destruct (running (tk w)); cbn in *; try lia. repeat split. lia.
Qed.

Lemma on_destroy_only_when_final timeout w pre seen post :
  reachable timeout w -> log w = pre ++ EOnDestroy seen :: post ->
  stopped seen = true /\ destroyed seen = true.
Proof.
  intros R E. apply reachable_inv in R. destruct R as [_ _ _ _ _ _ _ Hw _ _].
  rewrite E in Hw. apply Forall_app in Hw as [_ Hw].
  now inversion Hw.
Qed.

(** C4, as the code has it. Once [destroyed] is true no step makes it
    false again, and a further call of [start], [stop], [reset] or
    [destroy] takes and releases the mutex and changes nothing: no flag, no
    registration, no hook. [reset(int)] is the exception: it still stores
    the new period, and changes nothing else. *)
Theorem destroyed_is_terminal timeout w :
  reachable timeout w ->
  destroyed (tk w) = true ->
  (forall tr w', exec w tr = Next w' -> destroyed (tk w') = true) /\
  (forall e o,
     step e (ACall o) w =
     Next (World
             (match o with
              | OResetTo t => set_timeout_ms t (tk w)
              | _ => tk w
              end)
             (tm w) (threads w) (log w ++ [ELock; EUnlock]))).
Proof.
  intros R D. split.
  - clear R. intros tr. revert w D.
    induction tr as [|[e a] tr IH]; simpl; intros w D w' H.
    + now injection H as <-.
    + destruct (step e a w) as [w1| |] eqn:S1; try discriminate.
      eauto using step_keeps_destroyed.
  - intros e o. apply reachable_inv in R.
    destruct w as [[t s r d iv nd tmr] [pend nid] ths lg].
    destruct R as [Hp Hr Hs Hd Hi Hh Ha Hw Hu Hf]; cbn in *. subst d.
    rewrite (Hd eq_refl). destruct o; run_m; reflexivity.
Qed.

(** C5. On a stopped task [reset(int)] stores the new period and does
    nothing else, and [reset()] does nothing at all (both take and release
    the mutex). After [init(t0)], [reset(t1)] and [start()], the first call
    of [raft_timer_add] is made with the due-time
    [now + adjust_timeout_ms(t1)], and that is the due-time of the
    registration when the call succeeds. *)
Theorem reset_period_takes_effect :
  (forall e t1 c, stopped (c_tk c) = true ->
     reset_to e t1 c =
     Done None (CS (set_timeout_ms t1 (c_tk c)) (c_tm c) false
                   (c_ev c ++ [ELock; EUnlock]))) /\
  (forall e c, stopped (c_tk c) = true ->
     reset e c =
     Done None (CS (c_tk c) (c_tm c) false (c_ev c ++ [ELock; EUnlock]))) /\
  (forall t0 t1 e e',
     let due := milliseconds_from_now e' (adjust_timeout_ms t1) in
     exists w rc,
       exec (world0 t0) [(e, ACall (OResetTo t1)); (e', ACall OStart)] = Next w /\
       timeout_ms (tk w) = t1 /\
       next_duetime (tk w) = due /\
       log w = [ELock; EUnlock; ELock; ETimerAdd 0 due rc; EUnlock] /\
       (timer_add_ok e' = true ->
        rc = 0 /\ pending (tm w) = [(timer (tk w), due)])).
Proof.
  split; [|split].
  - intros e t1 [[t s r d iv nd tmr] tms ow ev]; cbn. intros ->.
    run_m. repeat rewrite <- app_assoc. reflexivity.
  - intros e [[t s r d iv nd tmr] tms ow ev]; cbn. intros ->.
    run_m. repeat rewrite <- app_assoc. reflexivity.
  - intros t0 t1 e [clk [] bok]; cbn; run_m;
      do 2 eexists; repeat split; try reflexivity; discriminate.
Qed.

(** C7, as the code has it. When [raft_timer_add] fails in [start()], no
    error reaches the caller: [schedule] releases the mutex and calls the
    fire callback [on_timedout(void* )]. That callback first tries to start
    a bthread: when that succeeds [start()] returns and the worker calls
    [run()]; only when that fails too is [run()] called inside [start()],
    on the caller's thread. In both cases [run()] is what the thread does
    after taking and releasing the mutex once. *)
Theorem failed_registration_fires_at_once timeout w e :
  reachable timeout w ->
  destroyed (tk w) = false -> stopped (tk w) = true -> running (tk w) = false ->
  timer_add_ok e = false ->
  let n := List.length (threads w) in
  let due := milliseconds_from_now e (adjust_timeout_ms (timeout_ms (tk w))) in
  exists w1,
    step e (ACall OStart) w = Next w1 /\
    stopped (tk w1) = false /\ running (tk w1) = true /\
    tm w1 = tm w /\
    threads w1 = threads w ++ [Th (InCall OStart) PDispatch] /\
    log w1 = log w ++ [ELock; ETimerAdd 0 due (-1); EUnlock] /\
    forall e1 e2 e3, exists w4,
      exec w1 [(e1, AThread n); (e2, AThread n); (e3, AThread n)] = Next w4 /\
      threads w4 =
        threads w ++ [Th (if bthread_ok e1 then InWorker else InCall OStart)
                         PReconcile] /\
      log w4 = log w1 ++ [ELock; EUnlock; ERun].
Proof.
  intros R D S Rn A. apply reachable_inv in R.
  destruct w as [[t s r d iv nd tmr] [pend nid] ths lg].
  destruct e as [clk addok bok].
  destruct R as [Hp Hr Hs Hd Hi Hh Ha Hw Hu Hf]; cbn in *. subst.
  destruct pend; cbn in Hr; try lia.
  run_m. eexists; repeat split.
  intros e1 e2 e3. unfold exec, step; cbn.
  rewrite nth_error_last, drop_nth_last; cbn.
  rewrite nth_error_last, drop_nth_last; cbn.
  rewrite nth_error_last, drop_nth_last; cbn.
  eexists; repeat split.
  repeat rewrite <- app_assoc. reflexivity.
Qed.

Lemma number_is_no_tag z : is_status_tag (string_of_Z z) = false.
Proof.
  unfold string_of_Z, NilZero.string_of_int.
  destruct (Z.to_int z) as [d|d]; [|reflexivity].
  destruct d; reflexivity.
Qed.

(** C8, as the code has it. [describe] reads the four flags, the due-time
    and the period between one lock and one unlock, writes only after the
    unlock, and writes the period followed by every tag that applies, in
    this order: [DESTROYED] when destroyed, [STOPPED] when stopped, and,
    when running, [INVOKING] or [SCHEDULING(in Nms)] with N the snapshotted
    due-time minus the current time. The number of tags is thus the number
    of flags among destroyed, stopped and running that are set. *)
Theorem describe_writes_every_flag e use_html c :
  let t := c_tk c in
  let tags :=
    (if destroyed t then [EWrite " DESTROYED"] else []) ++
    (if stopped t then [EWrite " STOPPED"] else []) ++
    (if running t then
       if invoking t then [EWrite " INVOKING"]
       else [EWrite " SCHEDULING(in ";
             EWrite (string_of_Z (next_duetime t - now e));
             EWrite "ms)"]
     else []) in
  let out :=
    [EWrite "timeout("; EWrite (string_of_Z (timeout_ms t)); EWrite "ms)"]
    ++ tags in
  describe e use_html c =
    Done tt (CS t (c_tm c) false (c_ev c ++ [ELock; EUnlock] ++ out)) /\
  status_tags out =
    (Nat.b2n (destroyed t) + Nat.b2n (stopped t) + Nat.b2n (running t))%nat /\
  unlocked is_write false ([ELock; EUnlock] ++ out) = true.
Proof.
  destruct c as [[t s r d iv nd tmr] tms ow ev]. cbn.
  split; [|split].
  - unfold describe, when, bind, ret, load, emit, lock, unlock, scope_exit,
      timespec_to_milliseconds, gettimeofday_ms; cbn.
    destruct d, s, r, iv; cbn; repeat rewrite <- app_assoc; reflexivity.
  - destruct d, s, r, iv; cbn; rewrite ?number_is_no_tag; reflexivity.
  - destruct d, s, r, iv; reflexivity.
Qed.

(** C9. On a task that is not in use (a reachable task with no callback
    in flight, or the object as the constructor leaves it) [init] leaves
    the four flags in the idle state, [stopped] true and [running],
    [destroyed] and [invoking] false, stores the given period, and returns
    0. It has no effect beyond the object: in any state the result is the
    same object with the period stored, the three flags [stopped],
    [running], [destroyed] set as said, and the timer handle reset;
    [invoking], which [init] does not write, is false already on a task
    that is not in use. *)
Theorem init_resets_idle_flags timeout :
  (forall t0 w, reachable t0 w -> count_pc in_flight (threads w) = 0%nat ->
     init timeout (tk w) =
     (0, Task timeout true false false false (next_duetime (tk w)) raft_timer_t0)) /\
  init timeout RepeatedTimerTask
    = (0, Task timeout true false false false 0 raft_timer_t0) /\
  (forall t,
     init timeout t =
     (0, Task timeout true false false (invoking t) (next_duetime t) raft_timer_t0)).
Proof.
  split; [|split]; try reflexivity.
  intros t0 w R F. apply reachable_inv in R.
  pose proof (count_action_le_flight (threads w)) as L.
  destruct R as [Hp Hr Hs Hd Hi Hh Ha Hw Hu Hf].
  assert (invoking (tk w) = false) as E.
  { destruct (invoking (tk w)); cbn in Hi; auto. lia. }
  unfold init, set_timer, set_running, set_stopped, set_destroyed,
    set_timeout_ms; cbn.
  now rewrite E.
Qed.

(** ** Further properties of the code *)

Lemma step_budget e a w w' :
  Inv w -> Budget w -> step e a w = Next w' -> Budget w'.
Proof.
  destruct w as [[t s r d iv nd tmr] [pend nid] ths lg].
  destruct e as [clk addok bok].
  intros [Hp Hr Hs Hd Hi Hh Ha Hw Hu Hf] B; unfold Budget in *; cbn in *.
  destruct a as [o|h|i].
  - destruct Hp as [-> | [Hs0 [due ->]]];
      destruct o; destruct s, r, d, addok; run_m;
      intros H; try discriminate H; injection H as <-; cbn in *;
      inv_log; rewrite ?length_app; cbn; lia.
  - destruct Hp as [-> | [Hs0 [due ->]]]; unfold step, outstanding, cancel; cbn;
      try discriminate.
    destruct (Nat.eqb tmr h); cbn; intros H; try discriminate H.
    injection H as <-. cbn in *. inv_log. lia.
  - unfold step; cbn.
    destruct (nth_error ths i) as [[c p]|] eqn:Hn; try discriminate.
    pose proof (count_pc_drop_nth before_run _ _ _ Hn) as F1.
    pose proof (count_pc_drop_nth in_flight _ _ _ Hn) as F2.
    cbn in F1, F2.
    destruct Hp as [-> | [Hs0 [due ->]]];
      destruct p; destruct s, r, d, addok; run_m;
      intros H; try discriminate H; injection H as <-; cbn in *;
      inv_log; rewrite ?length_app; cbn; lia.
Qed.

Lemma reachable_budget timeout w : reachable timeout w -> Budget w.
Proof.
  induction 1 as [|w e a w' R IH S1].
  - unfold Budget; cbn. inv_log. lia.
  - eapply step_budget; eauto using reachable_inv.
Qed.

(** A task that is not running stays so, calls neither [run()] nor
    [raft_timer_add] and has nothing registered, as long as [start()] is
    not called, or for ever once it is destroyed. *)
Lemma step_stays_quiet e a w w' :
  Inv w -> running (tk w) = false ->
  destroyed (tk w) = true \/ a <> ACall OStart ->
  step e a w = Next w' ->
  running (tk w') = false /\
  (destroyed (tk w) = true -> destroyed (tk w') = true) /\
  count_ev is_run (log w') = count_ev is_run (log w) /\
  count_ev is_timer_add (log w') = count_ev is_timer_add (log w).
Proof.
  destruct w as [[t s r d iv nd tmr] [pend nid] ths lg].
  destruct e as [clk addok bok].
  intros [Hp Hr Hs Hd Hi Hh Ha Hw Hu Hf] E N; cbn in *. subst r.
  destruct s; [|now specialize (Hs eq_refl)].
  destruct Hp as [-> | [Hs0 _]]; try discriminate. cbn in Hr.
  destruct a as [o|h|i].
  - destruct o; destruct d; try (destruct N; congruence); run_m;
      intros H; try discriminate H; injection H as <-; cbn; inv_log; auto.
  - unfold step; cbn. discriminate.
  - unfold step; cbn.
    destruct (nth_error ths i) as [[c p]|] eqn:Hn; try discriminate.
    pose proof (count_pc_drop_nth in_flight _ _ _ Hn) as F1. cbn in F1.
    destruct p; cbn in F1; try lia.
    intros H; injection H as <-; cbn; inv_log; auto.
Qed.

Lemma exec_stays_quiet tr : forall w w',
  Inv w -> running (tk w) = false ->
  destroyed (tk w) = true \/ Forall not_start tr ->
  exec w tr = Next w' ->
  Inv w' /\ running (tk w') = false /\
  count_ev is_run (log w') = count_ev is_run (log w) /\
  count_ev is_timer_add (log w') = count_ev is_timer_add (log w).
Proof.
  induction tr as [|[e a] tr IH]; simpl; intros w w' I Q N H.
  - injection H as <-. auto.
  - destruct (step e a w) as [w1| |] eqn:S1; try discriminate.
    assert (destroyed (tk w) = true \/ a <> ACall OStart) as N1.
    { destruct N as [D|F]; [now left|right]. now inversion F. }
    destruct (step_stays_quiet _ _ _ _ I Q N1 S1) as [Q1 [D1 [R1 A1]]].
    assert (destroyed (tk w1) = true \/ Forall not_start tr) as N2.
    { destruct N as [D|F]; [left; auto|right]. now inversion F. }
    destruct (IH w1 w' (step_inv _ _ _ _ I S1) Q1 N2 H) as [I' [Q' [R' A']]].
    split; [exact I'|]. split; [exact Q'|]. split; congruence.
Qed.

Lemma quiet_nothing_pending w :
  Inv w -> running (tk w) = false -> pending (tm w) = [].
Proof.
  intros [Hp Hr Hs Hd Hi Hh Ha Hw Hu Hf] Q. rewrite Q in Hr. cbn in Hr.
  destruct (pending (tm w)); cbn in Hr; auto; lia.
Qed.

(** X1. When no thread is inside a reachable task, the [CHECK]s of the
    destructor pass exactly when [destroy()] has been called. *)
Theorem destructor_legal_after_destroy timeout w :
  reachable timeout w -> threads w = [] ->
  destructor_checks (tk w) = destroyed (tk w).
Proof.
  intros R T. apply reachable_inv in R.
  destruct R as [Hp Hr Hs Hd Hi Hh Ha Hw Hu Hf].
  rewrite T, count_pc_nil in *. unfold destructor_checks.
  destruct (destroyed (tk w)) eqn:D; [|now rewrite andb_false_r].
  specialize (Hd eq_refl).
  destruct Hp as [Hp | [Hs0 _]]; try congruence.
  rewrite Hp in Hr. cbn in Hr. now destruct (running (tk w)).
Qed.

(** X2. At most one callback is in flight at any time, so [run()] never
    overlaps itself; and while one is in flight nothing is registered with
    the timer subsystem. *)
Theorem callbacks_are_serialized timeout w :
  reachable timeout w ->
  (count_pc in_flight (threads w) <= 1)%nat /\
  (count_pc in_action (threads w) <= 1)%nat /\
  ((0 < count_pc in_flight (threads w))%nat -> pending (tm w) = []).
Proof.
  intros R. apply reachable_inv in R.
  destruct R as [Hp Hr Hs Hd Hi Hh Ha Hw Hu Hf].
  pose proof (count_action_le_flight (threads w)) as L.
  destruct (running (tk w)); cbn in Hr;
    (split; [lia|split; [lia|]]); intros F;
    destruct (pending (tm w)); cbn in Hr; auto; lia.
Qed.

(** X3. [run()] is never called more often than [raft_timer_add]: every
    call of the user action answers one attempt to arm the timer. *)
Theorem runs_bounded_by_arms timeout w :
  reachable timeout w ->
  (count_ev is_run (log w) <= count_ev is_timer_add (log w))%nat.
Proof.
  intros R. apply reachable_budget in R. unfold Budget in R. lia.
Qed.

(** X4. One period of the timer. When the registration of a task that is
    not stopped fires, the callback, on a bthread or on the timer thread
    when no bthread can be started, calls [run()] once and registers again
    with the due-time [now + adjust_timeout_ms(timeout_ms)]; when that
    succeeds the task is back with exactly one registration and no thread
    inside. *)
Theorem fire_runs_once_and_rearms timeout w :
  reachable timeout w ->
  stopped (tk w) = false ->
  count_pc in_flight (threads w) = 0%nat ->
  forall e1 e2 e3 e4 e5, timer_add_ok e5 = true ->
    let n := List.length (threads w) in
    let due := milliseconds_from_now e5 (adjust_timeout_ms (timeout_ms (tk w))) in
    exists w',
      exec w [(e1, AFire (timer (tk w))); (e2, AThread n); (e3, AThread n);
              (e4, AThread n); (e5, AThread n)] = Next w' /\
      tk w' = set_timer (timer (tk w')) (set_next_duetime due (tk w)) /\
      pending (tm w') = [(timer (tk w'), due)] /\
      threads w' = threads w /\
      log w' = log w ++ [ELock; EUnlock; ERun; ELock; ETimerAdd 0 due 0; EUnlock].
Proof.
  intros R S F e1 e2 e3 e4 e5 A. apply reachable_inv in R.
  destruct w as [[t s r d iv nd tmr] [pend nid] ths lg].
  destruct e5 as [clk addok bok].
  destruct R as [Hp Hr Hs Hd Hi Hh Ha Hw Hu Hf]; cbn in *. subst.
  rewrite (Hs eq_refl) in *. rewrite F in Hr.
  destruct Hp as [-> | [_ [due ->]]]; cbn in Hr; try lia.
  pose proof (count_action_le_flight ths) as L. rewrite F in L.
  destruct iv; cbn in Hi; try lia.
  destruct d; [now specialize (Hd eq_refl)|].
  unfold exec, step; cbn. rewrite Nat.eqb_refl; cbn.
  rewrite nth_error_last, drop_nth_last; cbn.
  rewrite nth_error_last, drop_nth_last; cbn.
  rewrite nth_error_last, drop_nth_last; cbn.
  rewrite nth_error_last, drop_nth_last; run_m.
  eexists. repeat split. cbn. repeat rewrite <- app_assoc. reflexivity.
Qed.

(** X5. A re-arm that fails at the reconciliation does not stop the task:
    the callback goes round again and calls [run()] once more, without
    any registration. *)
Theorem failed_rearm_fires_again timeout w i c :
  reachable timeout w ->
  stopped (tk w) = false ->
  nth_error (threads w) i = Some (Th c PReconcile) ->
  forall e1 e2 e3 e4, timer_add_ok e1 = false ->
    let n := List.length (drop_nth i (threads w)) in
    let due := milliseconds_from_now e1 (adjust_timeout_ms (timeout_ms (tk w))) in
    exists w',
      exec w [(e1, AThread i); (e2, AThread n); (e3, AThread n); (e4, AThread n)]
        = Next w' /\
      tk w' = set_invoking true (set_next_duetime due (tk w)) /\
      pending (tm w') = [] /\
      threads w' = drop_nth i (threads w)
                   ++ [Th (if bthread_ok e2 then InWorker else c) PReconcile] /\
      log w' = log w ++ [ELock; ETimerAdd 0 due (-1); EUnlock; ELock; EUnlock; ERun].
Proof.
  intros R S Hn e1 e2 e3 e4 A. apply reachable_inv in R.
  destruct w as [[t s r d iv nd tmr] [pend nid] ths lg].
  destruct e1 as [clk addok bok].
  destruct R as [Hp Hr Hs Hd Hi Hh Ha Hw Hu Hf]; cbn in *. subst.
  rewrite (Hs eq_refl) in *.
  pose proof (count_pc_drop_nth in_flight _ _ _ Hn) as F1. cbn in F1.
  destruct pend; cbn in Hr; try lia.
  unfold exec, step; cbn. rewrite Hn; run_m.
  rewrite nth_error_last, drop_nth_last; cbn.
  rewrite nth_error_last, drop_nth_last; cbn.
  rewrite nth_error_last, drop_nth_last; cbn.
  eexists. repeat split. repeat rewrite <- app_assoc. reflexivity.
Qed.

(** X6. [stop()] on a task whose registration is outstanding cancels it
    and clears [running]; from then on, as long as [start()] is not
    called, the task stays not running, nothing is registered, and neither
    [run()] nor [raft_timer_add] is called. *)
Theorem stop_cancels_outstanding timeout w :
  reachable timeout w ->
  stopped (tk w) = false ->
  count_pc in_flight (threads w) = 0%nat ->
  forall e, exists w1,
    step e (ACall OStop) w = Next w1 /\
    tk w1 = set_running false (set_stopped true (tk w)) /\
    pending (tm w1) = [] /\ threads w1 = threads w /\
    log w1 = log w ++ [ELock; ETimerDel (timer (tk w)) 0; EUnlock] /\
    forall tr w', Forall not_start tr -> exec w1 tr = Next w' ->
      running (tk w') = false /\ pending (tm w') = [] /\
      count_ev is_run (log w') = count_ev is_run (log w) /\
      count_ev is_timer_add (log w') = count_ev is_timer_add (log w).
Proof.
  intros R S F e. pose proof (reachable_inv _ _ R) as I.
  destruct (step e (ACall OStop) w) as [w1| |] eqn:S1.
  - pose proof (step_inv _ _ _ _ I S1) as I1.
    assert (tk w1 = set_running false (set_stopped true (tk w)) /\
            pending (tm w1) = [] /\ threads w1 = threads w /\
            log w1 = log w ++ [ELock; ETimerDel (timer (tk w)) 0; EUnlock])
      as [T1 [P1 [Th1 L1]]].
    { revert S1. clear - I S F.
      destruct w as [[t s r d iv nd tmr] [pend nid] ths lg].
      destruct I as [Hp Hr Hs Hd Hi Hh Ha Hw Hu Hf]; cbn in *. subst.
      rewrite (Hs eq_refl) in *. rewrite F in Hr.
      destruct Hp as [-> | [_ [due ->]]]; cbn in Hr; try lia.
      run_m. intros H; injection H as <-. repeat split. }
    exists w1. repeat split; auto.
    + assert (running (tk w1) = false) as Q by now rewrite T1.
      destruct (exec_stays_quiet tr w1 w' I1 Q (or_intror H) H0) as [_ [Q' _]].
      exact Q'.
    + assert (running (tk w1) = false) as Q by now rewrite T1.
      destruct (exec_stays_quiet tr w1 w' I1 Q (or_intror H) H0) as [I' [Q' _]].
      now apply quiet_nothing_pending.
    + assert (running (tk w1) = false) as Q by now rewrite T1.
      destruct (exec_stays_quiet tr w1 w' I1 Q (or_intror H) H0) as [_ [_ [R' _]]].
      rewrite R', L1. inv_log. lia.
    + assert (running (tk w1) = false) as Q by now rewrite T1.
      destruct (exec_stays_quiet tr w1 w' I1 Q (or_intror H) H0) as [_ [_ [_ A']]].
      rewrite A', L1. inv_log. lia.
  - now apply step_no_crash in S1.
  - exfalso. revert S1. unfold step, leave.
    destruct (method e OStop (enter w)); discriminate.
Qed.

(** X7. [destroy()] on a task that has no callback in flight, idle or
    with its registration outstanding, cancels what is registered, leaves
    the task destroyed, stopped and not running, and calls the hook next,
    on an object that passes the [CHECK]s of the destructor. After that,
    whatever is called, [start()] included, the task does not run again:
    nothing is registered, and neither [run()] nor [raft_timer_add] is
    called. *)
Theorem destroy_ends_the_task timeout w :
  reachable timeout w ->
  destroyed (tk w) = false ->
  count_pc in_flight (threads w) = 0%nat ->
  forall e, exists w1,
    step e (ACall ODestroy) w = Next w1 /\
    tk w1 = set_running false (set_stopped true (set_destroyed true (tk w))) /\
    pending (tm w1) = [] /\
    threads w1 = threads w ++ [Th (InCall ODestroy) PHook] /\
    count_ev is_on_destroy (log w1) = 0%nat /\
    destructor_checks (tk w1) = true /\
    (forall e', step e' (AThread (List.length (threads w))) w1 =
                Next (World (tk w1) (tm w1) (threads w)
                        (log w1 ++ [EOnDestroy (tk w1)]))) /\
    forall tr w', exec w1 tr = Next w' ->
      destroyed (tk w') = true /\ running (tk w') = false /\
      pending (tm w') = [] /\
      count_ev is_run (log w') = count_ev is_run (log w) /\
      count_ev is_timer_add (log w') = count_ev is_timer_add (log w).
Proof.
  intros R D F e. pose proof (reachable_inv _ _ R) as I.
  destruct (step e (ACall ODestroy) w) as [w1| |] eqn:S1.
  - pose proof (step_inv _ _ _ _ I S1) as I1.
    assert (tk w1 = set_running false (set_stopped true (set_destroyed true (tk w))) /\
            pending (tm w1) = [] /\
            threads w1 = threads w ++ [Th (InCall ODestroy) PHook] /\
            count_ev is_on_destroy (log w1) = 0%nat /\
            count_ev is_run (log w1) = count_ev is_run (log w) /\
            count_ev is_timer_add (log w1) = count_ev is_timer_add (log w))
      as [T1 [P1 [Th1 [H1 [R1 A1]]]]].
    { revert S1. clear - I D F.
      destruct w as [[t s r d iv nd tmr] [pend nid] ths lg].
      destruct I as [Hp Hr Hs Hd Hi Hh Ha Hw Hu Hf]; cbn in *. subst.
      rewrite F in Hr. cbn in Hh.
      destruct Hp as [-> | [-> [due ->]]]; destruct r; cbn in Hr; try lia.
      - destruct s; [|now specialize (Hs eq_refl)].
        run_m. intros H; injection H as <-. cbn. inv_log.
        repeat split; lia.
      - run_m. intros H; injection H as <-. cbn. inv_log.
        repeat split; lia. }
    assert (running (tk w1) = false) as Q by now rewrite T1.
    assert (destroyed (tk w1) = true) as D1 by now rewrite T1.
    exists w1. split; [reflexivity|]. split; [exact T1|]. split; [exact P1|].
    split; [exact Th1|]. split; [exact H1|].
    split; [now rewrite T1|]. split.
    + intros e'. unfold step. rewrite Th1, nth_error_last, drop_nth_last.
      reflexivity.
    + intros tr w' E.
      destruct (exec_stays_quiet tr w1 w' I1 Q (or_introl D1) E)
        as [I' [Q' [R' A']]].
      split; [|split; [exact Q'|split; [now apply quiet_nothing_pending|]]].
      * clear - D1 E. revert w1 D1 E.
        induction tr as [|[e0 a] tr IH]; simpl; intros w1 D1 E.
        -- now injection E as <-.
        -- destruct (step e0 a w1) as [w2| |] eqn:S2; try discriminate.
           eauto using step_keeps_destroyed.
      * split; congruence.
  - now apply step_no_crash in S1.
  - exfalso. revert S1. unfold step, leave.
    destruct (method e ODestroy (enter w)); discriminate.
Qed.

(** X8. [reset()] and [reset(int)] on a task whose registration is
    outstanding cancel it and register again at once, with the due-time
    [now + adjust_timeout_ms(period)], the period being the new one for
    [reset(int)]. When the registration is refused the call goes on as a
    fire instead, with nothing registered. *)
Theorem reset_rearms timeout w o :
  reachable timeout w ->
  is_reset o = true ->
  stopped (tk w) = false ->
  count_pc in_flight (threads w) = 0%nat ->
  forall e,
    let due := milliseconds_from_now e (adjust_timeout_ms (period_after o (tk w))) in
    let rc := if timer_add_ok e then 0 else -1 in
    exists w1,
      step e (ACall o) w = Next w1 /\
      timeout_ms (tk w1) = period_after o (tk w) /\
      next_duetime (tk w1) = due /\
      stopped (tk w1) = false /\ running (tk w1) = true /\
      log w1 = log w ++ [ELock; ETimerDel (timer (tk w)) 0;
                         ETimerAdd 0 due rc; EUnlock] /\
      pending (tm w1) = (if timer_add_ok e then [(timer (tk w1), due)] else []) /\
      threads w1 = threads w ++
                   (if timer_add_ok e then [] else [Th (InCall o) PDispatch]).
Proof.
  intros R O S F e. apply reachable_inv in R.
  destruct w as [[t s r d iv nd tmr] [pend nid] ths lg].
  destruct e as [clk addok bok].
  destruct R as [Hp Hr Hs Hd Hi Hh Ha Hw Hu Hf]; cbn in *. subst.
  rewrite (Hs eq_refl) in *. rewrite F in Hr.
  destruct Hp as [-> | [_ [due ->]]]; cbn in Hr; try lia.
  destruct o; try discriminate O; destruct addok; run_m;
    eexists; repeat split; cbn; rewrite ?app_nil_r; reflexivity.
Qed.


Lemma exec_keeps_destroyed tr : forall w w',
  destroyed (tk w) = true -> exec w tr = Next w' -> destroyed (tk w') = true.
Proof.
  induction tr as [|[e a] tr IH]; simpl; intros w w' D E.
  - now injection E as <-.
  - destruct (step e a w) as [w1| |] eqn:S1; try discriminate.
    eauto using step_keeps_destroyed.
Qed.

(** X10. A repeated call is a no-op, in any state of the task. A
    [start()] that comes directly after a [start()] that returned from
    its critical section (it did not go on into the fire callback), and a
    [stop()] that comes directly after a [stop()], take and release the
    mutex and change nothing. Once [destroy()] has been called, every
    later [destroy()] does the same, whatever was called or has run in
    between. *)
Theorem second_call_is_noop :
  (forall e e' c c1, start e c = Done None c1 ->
     start e' c1 = Done None (CS (c_tk c1) (c_tm c1) false
                                 (c_ev c1 ++ [ELock; EUnlock]))) /\
  (forall c k c1, stop c = Done k c1 ->
     k = None /\
     stop c1 = Done None (CS (c_tk c1) (c_tm c1) false
                             (c_ev c1 ++ [ELock; EUnlock]))) /\
  (forall e w w1 tr w2 e',
     step e (ACall ODestroy) w = Next w1 ->
     exec w1 tr = Next w2 ->
     step e' (ACall ODestroy) w2 =
     Next (World (tk w2) (tm w2) (threads w2) (log w2 ++ [ELock; EUnlock]))).
Proof.
  split; [|split].
  - intros [clk addok bok] e' [[t s r d iv nd tmr] [pend nid] ow ev] c1.
    destruct d, s, r, addok; run_m; intros H; try discriminate H;
      injection H as <-;
      run_m; repeat rewrite <- app_assoc; reflexivity.
  - intros [[t s r d iv nd tmr] [pend nid] ow ev] k c1.
    destruct s, r; run_m;
      try match goal with
          | |- context [existsb ?f pend] => destruct (existsb f pend)
          end; cbn;
      intros H; try discriminate H; injection H as <- <-; (split; [reflexivity|]);
      run_m; repeat rewrite <- app_assoc; reflexivity.
  - intros e w w1 tr w2 e' S1 E.
    assert (destroyed (tk w1) = true) as D1.
    { revert S1. clear.
      destruct w as [[t s r d iv nd tmr] [pend nid] ths lg].
      destruct d, s, r; run_m;
        try match goal with
            | |- context [existsb ?f pend] => destruct (existsb f pend)
            end; cbn;
        intros H; try discriminate H; now injection H as <-. }
    pose proof (exec_keeps_destroyed tr w1 w2 D1 E) as D2. clear - D2.
    destruct w2 as [[t s r d iv nd tmr] [pend nid] ths lg]. cbn in D2. subst d.
    run_m. reflexivity.
Qed.

(** X11. No member function returns with the mutex held or releases it
    twice: each public operation and each half of [on_timedout()], entered
    without the mutex in any state, takes it first, takes it once,
    releases it once and does not own it when it returns. *)
Theorem mutex_released_on_every_path e t tms :
  forall m, In m [method e OStart; method e OStop; method e OReset;
                  method e ODestroy; on_timedout_enter; on_timedout_reconcile e]
            \/ (exists timeout, m = method e (OResetTo timeout)) ->
  forall k c, m (CS t tms false []) = Done k c ->
    c_owns c = false /\
    hd EUnlock (c_ev c) = ELock /\
    count_ev is_lock (c_ev c) = 1%nat /\
    count_ev is_unlock (c_ev c) = 1%nat /\
    held_after false (c_ev c) = false.
Proof.
  destruct e as [clk addok bok]. destruct t as [t s r d iv nd tmr].
  destruct tms as [pend nid].
  intros m [M | [timeout ->]] k c;
    [cbn in M; repeat destruct M as [<- | M]; try contradiction|];
    destruct d, s, r, addok; run_m;
    try match goal with
        | |- context [existsb ?f pend] => destruct (existsb f pend)
        end; cbn;
    intros H; try discriminate H; injection H as <- <-; cbn;
    repeat split.
Qed.

(** X12. [start()] on an idle task arms one registration, with the
    due-time [now + adjust_timeout_ms(timeout_ms)], and a [stop()] that
    comes before the fire takes it back: the flags and the period are as
    before, nothing is registered and [run()] was not called. *)
Theorem start_then_stop_round_trip timeout w :
  reachable timeout w ->
  destroyed (tk w) = false -> stopped (tk w) = true -> running (tk w) = false ->
  forall e e', timer_add_ok e = true ->
    let due := milliseconds_from_now e (adjust_timeout_ms (timeout_ms (tk w))) in
    exists w1 w2,
      step e (ACall OStart) w = Next w1 /\
      stopped (tk w1) = false /\ running (tk w1) = true /\
      pending (tm w1) = [(timer (tk w1), due)] /\
      step e' (ACall OStop) w1 = Next w2 /\
      tk w2 = set_timer (timer (tk w1)) (set_next_duetime due (tk w)) /\
      pending (tm w2) = [] /\ threads w2 = threads w /\
      log w2 = log w ++ [ELock; ETimerAdd 0 due 0; EUnlock;
                         ELock; ETimerDel (timer (tk w1)) 0; EUnlock].
Proof.
  intros R D S Q e e' A. apply reachable_inv in R.
  destruct w as [[t s r d iv nd tmr] [pend nid] ths lg].
  destruct e as [clk addok bok].
  destruct R as [Hp Hr Hs Hd Hi Hh Ha Hw Hu Hf]; cbn in *. subst.
  destruct pend; cbn in Hr; try lia.
  run_m. do 2 eexists. split; [reflexivity|]. run_m.
  repeat split. cbn. repeat rewrite <- app_assoc. reflexivity.
Qed.

(** X13. On a reachable task [describe] never writes the period alone:
    it writes at least one status tag, and always [STOPPED] next to
    [DESTROYED]; the task is left as it was. *)
Theorem describe_reports_a_state timeout w :
  reachable timeout w ->
  forall e use_html, exists c,
    describe e use_html (enter w) = Done tt c /\
    c_tk c = tk w /\ c_tm c = tm w /\ c_owns c = false /\
    (1 <= status_tags (c_ev c))%nat /\
    (destroyed (tk w) = true ->
     exists pre post,
       c_ev c = pre ++ [EWrite " DESTROYED"; EWrite " STOPPED"] ++ post).
Proof.
  intros R e h. apply reachable_inv in R.
  destruct w as [[t s r d iv nd tmr] tms ths lg].
  destruct R as [Hp Hr Hs Hd Hi Hh Ha Hw Hu Hf]; cbn in *.
  unfold describe, enter, when, bind, ret, load, emit, lock, unlock, scope_exit,
    timespec_to_milliseconds, gettimeofday_ms; cbn.
  destruct s; [|rewrite (Hs eq_refl)];
    destruct d; try (now specialize (Hd eq_refl));
    try destruct r; destruct iv; cbn;
    eexists; (split; [reflexivity|]); cbn; rewrite ?number_is_no_tag;
    repeat split; try lia; try discriminate;
    intros _;
    exists [ELock; EUnlock; EWrite "timeout("; EWrite (string_of_Z t); EWrite "ms)"];
    eexists; reflexivity.
Qed.

End RepeatedTimerTask.

(** ** The claims at concrete inputs *)

Lemma reachable_w_fired :
  reachable default_adjust_timeout_ms 100 w_fired.
Proof.
  apply (exec_reachable _ 100 to_fired (world0 100));
    [apply reach_init | vm_compute; reflexivity].
Qed.

Lemma reachable_w_invoking :
  reachable default_adjust_timeout_ms 100 w_invoking.
Proof.
  apply (exec_reachable _ 100 to_invoking (world0 100));
    [apply reach_init | vm_compute; reflexivity].
Qed.

Lemma reachable_w_stop_pending :
  reachable default_adjust_timeout_ms 100 w_stop_pending.
Proof.
  apply (exec_reachable _ 100 to_stop_pending (world0 100));
    [apply reach_init | vm_compute; reflexivity].
Qed.

Lemma reachable_w_reconciling :
  reachable default_adjust_timeout_ms 100 w_reconciling.
Proof.
  apply (exec_reachable _ 100 to_reconciling (world0 100));
    [apply reach_init | vm_compute; reflexivity].
Qed.

Lemma reachable_w_stopped :
  reachable default_adjust_timeout_ms 100 w_stopped.
Proof.
  apply (exec_reachable _ 100 to_stopped (world0 100));
    [apply reach_init | vm_compute; reflexivity].
Qed.

Lemma reachable_w_destroyed :
  reachable default_adjust_timeout_ms 100 w_destroyed.
Proof.
  apply (reach_step _ 100 (world0 100) (ok 0) (ACall ODestroy));
    [apply reach_init | vm_compute; reflexivity].
Qed.

(** C1 at work: start, the registration fires, [stop()] comes too late;
    later the callback reconciles. *)
Lemma stop_during_fire_witness :
  stopped (tk w_fired) = false /\
  (0 < count_pc in_flight (threads w_fired))%nat /\
  (exists w1,
     step default_adjust_timeout_ms (ok 101) (ACall OStop) w_fired = Next w1 /\
     stopped (tk w1) = true /\ running (tk w1) = true) /\
  (exists w3,
     step default_adjust_timeout_ms (ok 105) (AThread 0) w_reconciling = Next w3 /\
     stopped (tk w3) = true /\ running (tk w3) = false).
Proof.
  split; [reflexivity|]. split; [vm_compute; lia|].
  destruct (stop_during_fire_ends_stopped default_adjust_timeout_ms 100 w_fired
              reachable_w_fired eq_refl) as [H1 [H2 _]].
  - vm_compute; lia.
  - split.
    + destruct (H1 (ok 101)) as [w1 [S1 [S2 [S3 _]]]]. exists w1. auto.
    + destruct (H2 w_reconciling (ok 105) 0%nat InWorker
                   reachable_w_reconciling eq_refl eq_refl)
        as [w3 [S1 [S2 [S3 _]]]].
      exists w3. auto.
Defined.

(** The whole race of C1, start to end: the task is stopped, nothing is
    registered, no thread is left, and [raft_timer_add] was called once,
    by [start()]. *)
Example stop_during_fire_run :
  exec default_adjust_timeout_ms (world0 100) to_stopped = Next w_stopped /\
  stopped (tk w_stopped) = true /\ running (tk w_stopped) = false /\
  pending (tm w_stopped) = [] /\ threads w_stopped = [] /\
  count_ev is_timer_add (log w_stopped) = 1%nat /\
  count_ev is_run (log w_stopped) = 1%nat.
Proof. vm_compute. repeat split. Qed.

(** C2: the code at the failing input. [destroy()] comes while the fire is
    in flight and cannot cancel; the callback then calls [on_destroy()]
    before it clears [running] and while it holds the mutex, on an object
    that the [CHECK]s of the destructor refuse. The hook ran once. *)
Theorem deferred_hook_runs_while_running :
  exec default_adjust_timeout_ms (world0 50) to_deferred_destroy
    = Next w_deferred_destroy /\
  (exists pre,
     log w_deferred_destroy = pre ++ EOnDestroy seen_by_deferred_hook :: [EUnlock] /\
     held_after false pre = true) /\
  count_ev is_on_destroy (log w_deferred_destroy) = 1%nat /\
  running seen_by_deferred_hook = true /\
  destructor_checks seen_by_deferred_hook = false /\
  running (tk w_deferred_destroy) = false.
Proof.
  split; [vm_compute; reflexivity|]. split.
  - eexists. split; reflexivity.
  - repeat split.
Qed.

(** The sibling path of C2: when [destroy()] can cancel, the hook runs
    after [running] is cleared and with the mutex free. *)
Example destroy_hook_after_cancel :
  exec default_adjust_timeout_ms (world0 50) to_destroy_at_once
    = Next w_destroy_at_once /\
  (exists pre,
     log w_destroy_at_once = pre ++ [EOnDestroy seen_by_direct_hook] /\
     held_after false pre = false) /\
  running seen_by_direct_hook = false /\
  destructor_checks seen_by_direct_hook = true.
Proof.
  split; [vm_compute; reflexivity|]. split.
  - eexists. split; reflexivity.
  - repeat split.
Qed.

(** C3 at work: a [start()] that finds [running] true after a [stop()] that
    came too late. *)
Lemma no_double_arm_witness :
  (List.length (pending (tm w_stop_pending)) <= 1)%nat /\
  running (tk w_stop_pending) = true /\
  exists w1,
    step default_adjust_timeout_ms (ok 102) (ACall OStart) w_stop_pending = Next w1 /\
    stopped (tk w1) = false /\ tm w1 = tm w_stop_pending /\
    threads w1 = threads w_stop_pending /\
    log w1 = log w_stop_pending ++ [ELock; EUnlock].
Proof.
  destruct (no_double_arm default_adjust_timeout_ms 100 w_stop_pending
              reachable_w_stop_pending) as [H1 [_ [H3 _]]].
  split; [exact H1|]. split; [reflexivity|].
  destruct (H3 eq_refl (ok 102)) as [w1 [S1 [S2 [S3 [S4 S5]]]]].
  exists w1. rewrite S2. auto.
Defined.

(** C4 as stated fails: after [destroy()], [reset(200)] changes the
    period of the task. *)
Lemma reset_after_destroy_changes_period :
  ~ (forall w e o w',
       reachable default_adjust_timeout_ms 100 w -> destroyed (tk w) = true ->
       step default_adjust_timeout_ms e (ACall o) w = Next w' -> tk w' = tk w).
Proof.
  intros H.
  specialize (H w_destroyed (ok 1) (OResetTo 200) _
                reachable_w_destroyed eq_refl eq_refl).
  discriminate H.
Qed.

(** C4 at work, on the task destroyed right after [init]. *)
Lemma destroyed_is_terminal_witness :
  destroyed (tk w_destroyed) = true /\
  step default_adjust_timeout_ms (ok 1) (ACall OStart) w_destroyed =
    Next (World (tk w_destroyed) (tm w_destroyed) (threads w_destroyed)
            (log w_destroyed ++ [ELock; EUnlock])) /\
  step default_adjust_timeout_ms (ok 1) (ACall (OResetTo 200)) w_destroyed =
    Next (World (set_timeout_ms 200 (tk w_destroyed)) (tm w_destroyed)
            (threads w_destroyed) (log w_destroyed ++ [ELock; EUnlock])).
Proof.
  destruct (destroyed_is_terminal default_adjust_timeout_ms 100 w_destroyed
              reachable_w_destroyed eq_refl) as [_ H].
  split; [reflexivity|]. split.
  - exact (H (ok 1) OStart).
  - exact (H (ok 1) (OResetTo 200)).
Defined.

(** C5 at work: [reset(200)] and [reset()] on the task as [init(100)]
    leaves it. *)
Lemma reset_period_takes_effect_witness :
  stopped (snd (init 100 RepeatedTimerTask)) = true /\
  reset_to default_adjust_timeout_ms (ok 0) 200
    (CS (snd (init 100 RepeatedTimerTask)) (Timers [] 0%nat) false []) =
    Done None (CS (Task 200 true false false false 0 0%nat) (Timers [] 0%nat) false
                  [ELock; EUnlock]) /\
  reset default_adjust_timeout_ms (ok 0)
    (CS (snd (init 100 RepeatedTimerTask)) (Timers [] 0%nat) false []) =
    Done None (CS (snd (init 100 RepeatedTimerTask)) (Timers [] 0%nat) false
                  [ELock; EUnlock]).
Proof.
  destruct (reset_period_takes_effect default_adjust_timeout_ms) as [H1 [H2 _]].
  split; [reflexivity|]. split.
  - exact (H1 (ok 0) 200
             (CS (snd (init 100 RepeatedTimerTask)) (Timers [] 0%nat) false [])
             eq_refl).
  - exact (H2 (ok 0)
             (CS (snd (init 100 RepeatedTimerTask)) (Timers [] 0%nat) false [])
             eq_refl).
Defined.

(** C6 at work, while the user action runs. *)
Lemma run_outside_lock_witness :
  invoking (tk w_invoking) = true /\ running (tk w_invoking) = true /\
  held_after false (log w_invoking) = false /\
  step default_adjust_timeout_ms (ok 102) (AThread 0) w_invoking =
    Next (World (tk w_invoking) (tm w_invoking) [Th InWorker PReconcile]
            (log w_invoking ++ [ERun])).
Proof.
  destruct (run_outside_lock default_adjust_timeout_ms 100 w_invoking
              reachable_w_invoking) as [H1 [_ [H3 [_ [H5 _]]]]].
  split; [reflexivity|]. split; [exact (H3 eq_refl)|]. split; [exact H1|].
  exact (H5 (ok 102) 0%nat InWorker eq_refl).
Defined.

(** C7 as stated fails: [raft_timer_add] fails, the bthread starts, and
    [start()] has returned (no thread is inside it any more) although
    [run()] has not been called. *)
Lemma start_returns_before_run :
  ~ (forall e tr w,
       timer_add_ok e = false ->
       exec default_adjust_timeout_ms (world0 100) ((e, ACall OStart) :: tr) = Next w ->
       (forall th, In th (threads w) -> t_ctx th <> InCall OStart) ->
       (0 < count_ev is_run (log w))%nat).
Proof.
  intros H.
  specialize (H (no_timer 0) [(no_timer 0, AThread 0)]
                (World (Task 100 false true false false 100 0%nat) (Timers [] 0%nat)
                   [Th InWorker PEnter] [ELock; ETimerAdd 0 100 (-1); EUnlock])
                eq_refl eq_refl).
  assert (0 < 0)%nat as F; [|lia].
  apply H. intros th [<- | []]. discriminate.
Qed.

(** C7 at work, with a bthread and without. *)
Lemma failed_registration_witness :
  timer_add_ok (no_timer 0) = false /\
  (exists w,
     exec default_adjust_timeout_ms (world0 100)
       [(no_timer 0, ACall OStart); (no_timer 0, AThread 0);
        (no_timer 0, AThread 0); (no_timer 0, AThread 0)] = Next w /\
     threads w = [Th InWorker PReconcile] /\
     log w = [ELock; ETimerAdd 0 100 (-1); EUnlock; ELock; EUnlock; ERun]) /\
  (exists w,
     exec default_adjust_timeout_ms (world0 100)
       [(no_timer 0, ACall OStart); (no_timer_no_bthread 0, AThread 0);
        (no_timer 0, AThread 0); (no_timer 0, AThread 0)] = Next w /\
     threads w = [Th (InCall OStart) PReconcile] /\
     log w = [ELock; ETimerAdd 0 100 (-1); EUnlock; ELock; EUnlock; ERun]).
Proof.
  destruct (failed_registration_fires_at_once default_adjust_timeout_ms 100
              (world0 100) (no_timer 0)
              (reach_init _ 100) eq_refl eq_refl eq_refl eq_refl)
    as [w1 [S1 [_ [_ [_ [_ [L1 H]]]]]]].
  split; [reflexivity|]. split.
  - destruct (H (no_timer 0) (no_timer 0) (no_timer 0)) as [w4 [E [T L]]].
    exists w4. cbn [exec]. rewrite S1. cbn [exec] in E.
    split; [exact E|]. split; [exact T|]. rewrite L, L1. reflexivity.
  - destruct (H (no_timer_no_bthread 0) (no_timer 0) (no_timer 0)) as [w4 [E [T L]]].
    exists w4. cbn [exec]. rewrite S1. cbn [exec] in E.
    split; [exact E|]. split; [exact T|]. rewrite L, L1. reflexivity.
Defined.

(** C8 as stated fails: a destroyed task is stopped too, and [describe]
    writes both tags. *)
Lemma describe_two_tags :
  ~ (forall e use_html t tms,
       exists c, describe e use_html (CS t tms false []) = Done tt c /\
                 status_tags (c_ev c) = 1%nat).
Proof.
  intros H.
  destruct (H (ok 0) false (Task 100 true false true false 0 0%nat) (Timers [] 0%nat))
    as [c [E T]].
  vm_compute in E. injection E as <-. vm_compute in T. discriminate T.
Qed.

(** What [describe] writes in the states of the scenarios of the spec. *)
Example describe_outputs :
  let out t := match describe (ok 7) false (CS t (Timers [] 0%nat) false []) with
               | Done _ c => written (c_ev c)
               | Fatal _ => EmptyString
               end in
  out (Task 100 false true false false 107 1%nat) = "timeout(100ms) SCHEDULING(in 100ms)"%string /\
  out (Task 100 false true false true 107 1%nat) = "timeout(100ms) INVOKING"%string /\
  out (Task 100 true false false false 107 1%nat) = "timeout(100ms) STOPPED"%string /\
  out (Task 100 true true false true 107 1%nat) = "timeout(100ms) STOPPED INVOKING"%string /\
  out (Task 50 true false true false 57 1%nat) = "timeout(50ms) DESTROYED STOPPED"%string.
Proof. vm_compute. repeat split. Qed.

(** [init] does not write [invoking]: called while the user action runs,
    against its precondition, it leaves the flag set. *)
Example init_while_invoking :
  stopped (tk w_invoking) = false /\
  count_pc in_flight (threads w_invoking) = 1%nat /\
  invoking (snd (init 30 (tk w_invoking))) = true.
Proof. repeat split. Qed.

(** C9 at work, on a task that went through a fire and a stop. *)
Lemma init_resets_idle_flags_witness :
  count_pc in_flight (threads w_stopped) = 0%nat /\
  init 30 (tk w_stopped) = (0, Task 30 true false false false 100 raft_timer_t0) /\
  invoking (snd (init 30 (tk w_stopped))) = false.
Proof.
  destruct (init_resets_idle_flags default_adjust_timeout_ms 30) as [H1 _].
  pose proof (H1 100 w_stopped reachable_w_stopped eq_refl) as E.
  split; [reflexivity|]. split; [exact E|].
  rewrite E. reflexivity.
Defined.

(** C10 at work: every operation on a task whose callback is running. *)
Lemma checks_never_fail_witness :
  stopped (tk w_invoking) = false /\ running (tk w_invoking) = true /\
  step default_adjust_timeout_ms (ok 102) (ACall OStop) w_invoking <> Crash /\
  step default_adjust_timeout_ms (ok 102) (ACall OReset) w_invoking <> Crash /\
  step default_adjust_timeout_ms (ok 102) (ACall (OResetTo 5)) w_invoking <> Crash /\
  step default_adjust_timeout_ms (ok 102) (ACall ODestroy) w_invoking <> Crash /\
  step default_adjust_timeout_ms (ok 102) (AThread 0) w_invoking <> Crash.
Proof.
  destruct (checks_never_fail default_adjust_timeout_ms 100 w_invoking
              reachable_w_invoking) as [H1 H2].
  split; [reflexivity|]. split; [exact (H1 eq_refl)|].
  repeat (split; [apply H2|]). apply H2.
Defined.

(** The [CHECK]s are real: off the reachable states they fail. *)
Example check_fails_off_reachable :
  step default_adjust_timeout_ms (ok 0) (ACall OStop)
    (World (Task 100 false false false false 0 0%nat) (Timers [] 0%nat) [] []) = Crash /\
  step default_adjust_timeout_ms (ok 0) (AThread 0)
    (World (Task 100 true false false false 0 0%nat) (Timers [] 0%nat)
       [Th InWorker PReconcile] []) = Crash.
Proof. split; vm_compute; reflexivity. Qed.

(** ** The further properties at concrete inputs *)

Lemma reachable_w_scheduled :
  reachable default_adjust_timeout_ms 100 w_scheduled.
Proof.
  apply (exec_reachable _ 100 to_scheduled (world0 100));
    [apply reach_init | vm_compute; reflexivity].
Qed.

Lemma reachable_w_invoked :
  reachable default_adjust_timeout_ms 100 w_invoked.
Proof.
  apply (exec_reachable _ 100 to_invoked (world0 100));
    [apply reach_init | vm_compute; reflexivity].
Qed.

Lemma reachable_w_deferred_destroy :
  reachable default_adjust_timeout_ms 50 w_deferred_destroy.
Proof.
  apply (exec_reachable _ 50 to_deferred_destroy (world0 50));
    [apply reach_init | vm_compute; reflexivity].
Qed.

(** X1 at work: after the deferred destroy the destructor may run; after a
    mere stop it may not. *)
Lemma destructor_legal_witness :
  threads w_deferred_destroy = [] /\
  destructor_checks (tk w_deferred_destroy) = true /\
  threads w_stopped = [] /\
  destructor_checks (tk w_stopped) = false.
Proof.
  split; [reflexivity|]. split.
  - exact (destructor_legal_after_destroy default_adjust_timeout_ms 50
             w_deferred_destroy reachable_w_deferred_destroy eq_refl).
  - split; [reflexivity|].
    exact (destructor_legal_after_destroy default_adjust_timeout_ms 100
             w_stopped reachable_w_stopped eq_refl).
Defined.

(** X2 at work, while the user action runs. *)
Lemma callbacks_are_serialized_witness :
  (count_pc in_flight (threads w_invoking) <= 1)%nat /\
  pending (tm w_invoking) = [].
Proof.
  destruct (callbacks_are_serialized default_adjust_timeout_ms 100 w_invoking
              reachable_w_invoking) as [H1 [_ H3]].
  split; [exact H1|]. apply H3. vm_compute; lia.
Defined.

(** X3 at work, after one fire. *)
Lemma runs_bounded_by_arms_witness :
  (count_ev is_run (log w_invoked) <= count_ev is_timer_add (log w_invoked))%nat.
Proof.
  exact (runs_bounded_by_arms default_adjust_timeout_ms 100 w_invoked
           reachable_w_invoked).
Defined.

(** X4 at work: one period, once on a bthread and once on the timer
    thread. *)
Lemma fire_runs_once_and_rearms_witness :
  stopped (tk w_scheduled) = false /\
  (exists w',
     exec default_adjust_timeout_ms w_scheduled
       [(ok 100, AFire 1%nat); (ok 100, AThread 0); (ok 101, AThread 0);
        (ok 102, AThread 0); (ok 103, AThread 0)] = Next w' /\
     pending (tm w') = [(timer (tk w'), 203)] /\ threads w' = []) /\
  (exists w',
     exec default_adjust_timeout_ms w_scheduled
       [(ok 100, AFire 1%nat); (Env 100 true false, AThread 0); (ok 101, AThread 0);
        (ok 102, AThread 0); (ok 103, AThread 0)] = Next w' /\
     pending (tm w') = [(timer (tk w'), 203)] /\ threads w' = []).
Proof.
  pose proof (fire_runs_once_and_rearms default_adjust_timeout_ms 100 w_scheduled
                reachable_w_scheduled eq_refl eq_refl) as H.
  split; [reflexivity|]. split.
  - destruct (H (ok 100) (ok 100) (ok 101) (ok 102) (ok 103) eq_refl)
      as [w' [E [_ [P [T _]]]]].
    exists w'. split; [exact E|]. split; [exact P|exact T].
  - destruct (H (ok 100) (Env 100 true false) (ok 101) (ok 102) (ok 103) eq_refl)
      as [w' [E [_ [P [T _]]]]].
    exists w'. split; [exact E|]. split; [exact P|exact T].
Defined.

(** X5 at work: the re-arm fails after the first [run()]. *)
Lemma failed_rearm_fires_again_witness :
  stopped (tk w_invoked) = false /\
  exists w',
    exec default_adjust_timeout_ms w_invoked
      [(no_timer 103, AThread 0); (ok 103, AThread 0); (ok 104, AThread 0);
       (ok 105, AThread 0)] = Next w' /\
    pending (tm w') = [] /\
    log w' = log w_invoked ++
             [ELock; ETimerAdd 0 203 (-1); EUnlock; ELock; EUnlock; ERun].
Proof.
  split; [reflexivity|].
  destruct (failed_rearm_fires_again default_adjust_timeout_ms 100 w_invoked
              0%nat InWorker reachable_w_invoked eq_refl eq_refl
              (no_timer 103) (ok 103) (ok 104) (ok 105) eq_refl)
    as [w' [E [_ [P [_ L]]]]].
  exists w'. split; [exact E|]. split; [exact P|exact L].
Defined.

(** X6 at work: [stop()] before the fire, then a [reset()] and a
    [destroy()] and its hook. *)
Lemma stop_cancels_outstanding_witness :
  stopped (tk w_scheduled) = false /\
  count_pc in_flight (threads w_scheduled) = 0%nat /\
  exists w1,
    step default_adjust_timeout_ms (ok 5) (ACall OStop) w_scheduled = Next w1 /\
    pending (tm w1) = [] /\
    forall w',
      exec default_adjust_timeout_ms w1
        [(ok 6, ACall OReset); (ok 7, ACall ODestroy); (ok 8, AThread 0)] = Next w' ->
      running (tk w') = false /\
      count_ev is_run (log w') = count_ev is_run (log w_scheduled).
Proof.
  split; [reflexivity|]. split; [reflexivity|].
  destruct (stop_cancels_outstanding default_adjust_timeout_ms 100 w_scheduled
              reachable_w_scheduled eq_refl eq_refl (ok 5))
    as [w1 [S1 [_ [P1 [_ [_ H]]]]]].
  exists w1. split; [exact S1|]. split; [exact P1|].
  intros w' E.
  destruct (H [(ok 6, ACall OReset); (ok 7, ACall ODestroy); (ok 8, AThread 0)] w')
    as [Q [_ [R _]]]; auto.
  repeat constructor; discriminate.
Defined.

(** X7 at work: [destroy()] before the fire, then a [start()]. *)
Lemma destroy_ends_the_task_witness :
  destroyed (tk w_scheduled) = false /\
  exists w1,
    step default_adjust_timeout_ms (ok 5) (ACall ODestroy) w_scheduled = Next w1 /\
    threads w1 = [Th (InCall ODestroy) PHook] /\
    destructor_checks (tk w1) = true /\
    forall w',
      exec default_adjust_timeout_ms w1
        [(ok 6, AThread 0); (ok 7, ACall OStart)] = Next w' ->
      running (tk w') = false /\ pending (tm w') = [].
Proof.
  split; [reflexivity|].
  destruct (destroy_ends_the_task default_adjust_timeout_ms 100 w_scheduled
              reachable_w_scheduled eq_refl eq_refl (ok 5))
    as [w1 [S1 [_ [_ [T1 [_ [C1 [_ H]]]]]]]].
  exists w1. split; [exact S1|]. split; [exact T1|]. split; [exact C1|].
  intros w' E. destruct (H _ w' E) as [_ [Q [P _]]]. auto.
Defined.

(** X8 at work: [reset(30)] before the fire. *)
Lemma reset_rearms_witness :
  is_reset (OResetTo 30) = true /\
  exists w1,
    step default_adjust_timeout_ms (ok 40) (ACall (OResetTo 30)) w_scheduled
      = Next w1 /\
    timeout_ms (tk w1) = 30 /\
    pending (tm w1) = [(timer (tk w1), 70)] /\
    log w1 = log w_scheduled ++
             [ELock; ETimerDel 1%nat 0; ETimerAdd 0 70 0; EUnlock].
Proof.
  split; [reflexivity|].
  destruct (reset_rearms default_adjust_timeout_ms 100 w_scheduled (OResetTo 30)
              reachable_w_scheduled eq_refl eq_refl eq_refl (ok 40))
    as [w1 [S1 [T1 [_ [_ [_ [L1 [P1 _]]]]]]]].
  exists w1. split; [exact S1|]. split; [exact T1|]. split; [exact P1|exact L1].
Defined.


(** X10 at work: [stop()] twice on the scheduled task, and [destroy()]
    again after a [destroy()], its hook and a [start()]. *)
Lemma second_call_is_noop_witness :
  (exists c1,
     stop (enter w_scheduled) = Done None c1 /\
     stop c1 = Done None (CS (c_tk c1) (c_tm c1) false (c_ev c1 ++ [ELock; EUnlock]))) /\
  (exists w2,
     exec default_adjust_timeout_ms w_destroyed
       [(ok 2, AThread 0); (ok 3, ACall OStart)] = Next w2 /\
     step default_adjust_timeout_ms (ok 4) (ACall ODestroy) w2 =
       Next (World (tk w2) (tm w2) (threads w2) (log w2 ++ [ELock; EUnlock]))).
Proof.
  destruct (second_call_is_noop default_adjust_timeout_ms) as [_ [H2 H3]].
  split.
  - exists (CS (Task 100 true false false false 100 1%nat) (Timers [] 1%nat) false
              [ELock; ETimerDel 1%nat 0; EUnlock]).
    split; [vm_compute; reflexivity|].
    exact (proj2 (H2 (enter w_scheduled) None _ eq_refl)).
  - exists (World (Task 100 true false true false 0 0%nat) (Timers [] 0%nat) []
              [ELock; EUnlock; EOnDestroy (Task 100 true false true false 0 0%nat);
               ELock; EUnlock]).
    split; [vm_compute; reflexivity|].
    apply (H3 (ok 0) (world0 100) w_destroyed
              [(ok 2, AThread 0); (ok 3, ACall OStart)]);
      vm_compute; reflexivity.
Defined.

(** X11 at work: [destroy()] that cancels, on the scheduled task. *)
Lemma mutex_released_witness :
  exists c,
    destroy (CS (tk w_scheduled) (tm w_scheduled) false []) = Done (Some PHook) c /\
    c_owns c = false /\
    count_ev is_lock (c_ev c) = 1%nat /\ count_ev is_unlock (c_ev c) = 1%nat.
Proof.
  exists (CS (Task 100 true false true false 100 1%nat) (Timers [] 1%nat) false
            [ELock; ETimerDel 1%nat 0; EUnlock]).
  split; [vm_compute; reflexivity|].
  destruct (mutex_released_on_every_path default_adjust_timeout_ms (ok 0)
              (tk w_scheduled) (tm w_scheduled)
              (method default_adjust_timeout_ms (ok 0) ODestroy)
              (or_introl (or_intror (or_intror (or_intror (or_introl eq_refl)))))
              (Some PHook)
              (CS (Task 100 true false true false 100 1%nat) (Timers [] 1%nat) false
                  [ELock; ETimerDel 1%nat 0; EUnlock]) eq_refl)
    as [O [_ [L [U _]]]].
  split; [exact O|]. split; [exact L|exact U].
Defined.

(** X12 at work, on the task right after [init(100)]. *)
Lemma start_then_stop_witness :
  exists w1 w2,
    step default_adjust_timeout_ms (ok 0) (ACall OStart) (world0 100) = Next w1 /\
    pending (tm w1) = [(timer (tk w1), 100)] /\
    step default_adjust_timeout_ms (ok 5) (ACall OStop) w1 = Next w2 /\
    pending (tm w2) = [] /\ threads w2 = [] /\
    stopped (tk w2) = true /\ running (tk w2) = false.
Proof.
  destruct (start_then_stop_round_trip default_adjust_timeout_ms 100 (world0 100)
              (reach_init _ 100) eq_refl eq_refl eq_refl (ok 0) (ok 5) eq_refl)
    as [w1 [w2 [S1 [_ [_ [P1 [S2 [T2 [P2 [Th2 _]]]]]]]]]].
  exists w1, w2. split; [exact S1|]. split; [exact P1|]. split; [exact S2|].
  split; [exact P2|]. split; [exact Th2|]. rewrite T2. split; reflexivity.
Defined.

(** X13 at work, on the task destroyed right after [init(100)]. *)
Lemma describe_reports_a_state_witness :
  destroyed (tk w_destroyed) = true /\
  exists c,
    describe (ok 9) false (enter w_destroyed) = Done tt c /\
    (1 <= status_tags (c_ev c))%nat /\
    written (c_ev c) = "timeout(100ms) DESTROYED STOPPED"%string.
Proof.
  split; [reflexivity|].
  destruct (describe_reports_a_state default_adjust_timeout_ms 100 w_destroyed
              reachable_w_destroyed (ok 9) false) as [c [E [_ [_ [_ [T _]]]]]].
  exists c. split; [exact E|]. split; [exact T|].
  vm_compute in E. injection E as <-. reflexivity.
Defined.
